(** * The [query_transform] template tag of the taxi service

    A shallow embedding of [taxi/templatetags/query_transform.py] and of the
    parts of Django's [QueryDict] and of Python's [urllib.parse] that the tag
    runs through:

<<
    updated = request.GET.copy()
    for k, v in kwargs.items():
        if v is not None:
            updated[k] = v
        else:
            updated.pop(k, 0)
    return updated.urlencode()
>>

    Conventions of the model.
    - A Python [str] is modelled by the byte sequence of its UTF-8 encoding,
      as a Rocq [string]; encoding a [str] to UTF-8 is then the identity,
      and so is decoding the bytes that [unquote] finds in a string that
      [urlencode] wrote.
    - The values of keywords are [None], [str], [int] and [bool]; an [int]
      is a [Z] and [str] of it is its decimal writing. CPython 3.11 refuses
      to write an [int] of more than [sys.get_int_max_str_digits()] digits:
      [query_transform] is the tag wherever [str] returns, and
      [query_transform_under] is the tag with that limit, where [str] can
      raise [ValueError].
    - A Python [dict] is an association list in insertion order, with
      pairwise distinct keys.
    - Objects that the tag can mutate ([QueryDict] instances) live in a heap
      and are passed by reference; a method takes the reference [self].
    - [urllib.parse] is the one of CPython 3.11: [quote_plus] writes a space
      as [+] and leaves letters, digits and [_.-~] as they are. *)

From Stdlib Require Import Ascii String ZArith.
From stdpp Require Import base list strings pretty.

(** ** Python values *)

(** The scalars a template can pass as keyword values. *)
Inductive pyval : Type :=
  | PyNone
  | PyStr (s : string)
  | PyInt (z : Z)
  | PyBool (b : bool).

#[global] Instance pyval_eq_dec : EqDecision pyval.
Proof. solve_decision. Defined.

(** [v is not None] *)
Definition is_not_None (v : pyval) : bool :=
  match v with PyNone => false | _ => true end.

(** The string [str(v)] returns. For an [int] whose digits exceed the limit
    of the interpreter [str] raises instead: see [str_under] below. *)
Definition py_str (v : pyval) : string :=
  match v with
  | PyNone => "None"
  | PyStr s => s
  | PyInt z => pretty z
  | PyBool true => "True"
  | PyBool false => "False"
  end.

(** ** Strings *)

Module Str.

(** [c in s] *)
Fixpoint contains (c : ascii) (s : string) : bool :=
  match s with
  | EmptyString => false
  | String a s' => Ascii.eqb a c || contains c s'
  end.

(** every character of [s] satisfies [p] *)
Fixpoint all (p : ascii → bool) (s : string) : bool :=
  match s with
  | EmptyString => true
  | String a s' => p a && all p s'
  end.

(** [s.replace(old, new)] for one-character [old] and [new] *)
Fixpoint replace (old new : ascii) (s : string) : string :=
  match s with
  | EmptyString => EmptyString
  | String a s' =>
      String (if Ascii.eqb a old then new else a) (replace old new s')
  end.

(** [s.split(sep)] for a one-character separator: never empty. *)
Fixpoint split (sep : ascii) (s : string) : list string :=
  match s with
  | EmptyString => [EmptyString]
  | String a s' =>
      if Ascii.eqb a sep then EmptyString :: split sep s'
      else match split sep s' with
           | h :: t => String a h :: t
           | [] => [String a EmptyString]
           end
  end.

(** [s.partition(sep)] when [sep] occurs in [s]. *)
Fixpoint cut (sep : ascii) (s : string) : option (string * string) :=
  match s with
  | EmptyString => None
  | String a s' =>
      if Ascii.eqb a sep then Some (EmptyString, s')
      else match cut sep s' with
           | Some (h, t) => Some (String a h, t)
           | None => None
           end
  end.

(** [s.split(sep, 1)]: one or two pieces. *)
Definition split1 (sep : ascii) (s : string) : list string :=
  match cut sep s with
  | Some (h, t) => [h; t]
  | None => [s]
  end.

(** [sep.join(l)] *)
Definition join (sep : string) (l : list string) : string :=
  String.concat sep l.

(** [s.startswith(c)] for a one-character [c] *)
Definition startswith (c : ascii) (s : string) : bool :=
  match s with
  | String a _ => Ascii.eqb a c
  | EmptyString => false
  end.

End Str.

(** ** [urllib.parse] *)

Module Urllib.

(** [_ALWAYS_SAFE]: ASCII letters, digits and [_.-~]. *)
Definition _ALWAYS_SAFE (c : ascii) : bool :=
  let n := nat_of_ascii c in
  ((65 <=? n) && (n <=? 90)) || ((97 <=? n) && (n <=? 122))
  || ((48 <=? n) && (n <=? 57))
  || Ascii.eqb c "_" || Ascii.eqb c "." || Ascii.eqb c "-" || Ascii.eqb c "~".

(** one digit of ["{:02X}"] *)
Definition hexdigit (n : nat) : ascii :=
  if (n <? 10) then ascii_of_nat (48 + n) else ascii_of_nat (55 + n).

(** [_Quoter(safe).__missing__(b)]:
    [chr(b) if b in self.safe else '%{:02X}'.format(b)],
    where [self.safe = _ALWAYS_SAFE.union(safe)]. *)
Definition quoter (safe : list ascii) (b : ascii) : string :=
  if _ALWAYS_SAFE b || bool_decide (b ∈ safe) then String b EmptyString
  else
    let n := nat_of_ascii b in
    String "%" (String (hexdigit (n / 16))
               (String (hexdigit (n mod 16)) EmptyString)).

(** [quote_from_bytes(bs, safe)]: [''.join([quoter(char) for char in bs])].
    (The shortcuts for an empty [bs] and for a [bs] of safe bytes only
    return the same string.) *)
Fixpoint quote_from_bytes (bs : string) (safe : list ascii) : string :=
  match bs with
  | EmptyString => EmptyString
  | String b bs' => quoter safe b +:+ quote_from_bytes bs' safe
  end.

(** [quote_plus(string, safe='')] on a [bytes] argument. *)
Definition quote_plus (s : string) : string :=
  if negb (Str.contains " " s) then quote_from_bytes s []
  else Str.replace " " "+" (quote_from_bytes s [" "%char]).

(** [urlencode({k: v})] for [bytes] [k] and [v] (no [doseq], [quote_via]
    is [quote_plus]): the one pair [k=v]. *)
Definition urlencode (k v : string) : string :=
  quote_plus k +:+ "=" +:+ quote_plus v.

(** value of a character of [_hexdig = '0123456789ABCDEFabcdef'] *)
Definition hexval (c : ascii) : option nat :=
  let n := nat_of_ascii c in
  if ((48 <=? n) && (n <=? 57)) then Some (n - 48)
  else if ((65 <=? n) && (n <=? 70)) then Some (n - 55)
  else if ((97 <=? n) && (n <=? 102)) then Some (n - 87)
  else None.

(** [unquote(string)]: every [%xx] with two hexadecimal digits becomes the
    byte it names, any other [%] stays. [unquote_to_bytes] splits at [%]
    and looks the two characters after each one up in [_hextobyte]; as a
    hexadecimal digit is never [%], that is this scan from the left. *)
Fixpoint unquote (s : string) : string :=
  match s with
  | EmptyString => EmptyString
  | String c s' =>
      if Ascii.eqb c "%" then
        match s' with
        | String a (String b s'') =>
            match hexval a, hexval b with
            | Some x, Some y => String (ascii_of_nat (16 * x + y)) (unquote s'')
            | _, _ => String c (unquote s')
            end
        | _ => String c (unquote s')
        end
      else String c (unquote s')
  end.

(** [parse_qsl(qs, keep_blank_values)], with [strict_parsing=False],
    [max_num_fields=None] and [separator='&']. *)
Definition parse_qsl (qs : string) (keep_blank_values : bool)
  : list (string * string) :=
  let query_args :=
    match qs with EmptyString => [] | _ => Str.split "&" qs end in
  let field (nv0 nv1 : string) : list (string * string) :=
    if negb (String.length nv1 =? 0) || keep_blank_values then
      [(unquote (Str.replace "+" " " nv0), unquote (Str.replace "+" " " nv1))]
    else [] in
  flat_map (λ name_value,
    match name_value with
    | EmptyString => []
    | _ =>
        match Str.split1 "=" name_value with
        | [nv0; nv1] => field nv0 nv1
        | [nv0] => if keep_blank_values then field nv0 EmptyString else []
        | _ => []
        end
    end) query_args.

End Urllib.

(** ** Python dictionaries *)

(** A [dict] with [str] keys: the bindings in insertion order. *)
Module Dict.
Section dict.
Context {V : Type}.

(** [d.get(k)] *)
Fixpoint get (k : string) (d : list (string * V)) : option V :=
  match d with
  | [] => None
  | (k', v) :: d' => if decide (k' = k) then Some v else get k d'
  end.

(** [d[k] = v]: a key already there keeps its place, a new key goes
    last. *)
Fixpoint setitem (k : string) (v : V) (d : list (string * V))
  : list (string * V) :=
  match d with
  | [] => [(k, v)]
  | (k', v') :: d' =>
      if decide (k' = k) then (k, v) :: d' else (k', v') :: setitem k v d'
  end.

(** the dictionary after [d.pop(k, default)] *)
Fixpoint remove (k : string) (d : list (string * V)) : list (string * V) :=
  match d with
  | [] => []
  | (k', v') :: d' =>
      if decide (k' = k) then d' else (k', v') :: remove k d'
  end.

(** [list(d.keys())] *)
Definition keys (d : list (string * V)) : list string := d.*1.

End dict.
End Dict.

(** ** Django's [QueryDict] *)

(** A [QueryDict] is a [MultiValueDict], a [dict] from a key to the list of
    its values, with a flag that allows mutation. The lists are kept inside
    the object: the tag never mutates one, it binds a key to a new list or
    drops the binding. *)
Record QueryDict : Type := {
  data : list (string * list pyval);
  _mutable : bool
}.

Inductive exn : Type :=
  | AttributeError  (** ["This QueryDict instance is immutable"] *)
  | ValueError      (** ["Exceeds the limit (4300 digits) for integer string
                        conversion"] *)
  | NoObject.       (** a reference to no object: not a Python state *)

Inductive result (A : Type) : Type :=
  | Ok (a : A)
  | Raise (e : exn).
Arguments Ok {A} a.
Arguments Raise {A} e.

(** References are positions in the heap. *)
Definition ref : Type := nat.
Definition heap : Type := list QueryDict.

(** Computations that read and write the heap and may raise. *)
Definition M (A : Type) : Type := heap → result A * heap.

#[global] Instance M_ret : MRet M := λ A a h, (Ok a, h).
#[global] Instance M_bind : MBind M := λ A B f m h,
  match m h with
  | (Ok a, h') => f a h'
  | (Raise e, h') => (Raise e, h')
  end.
Definition raise {A} (e : exn) : M A := λ h, (Raise e, h).

(** the object behind a reference *)
Definition deref (r : ref) : M QueryDict :=
  λ h, match h !! r with
       | Some o => (Ok o, h)
       | None => (Raise NoObject, h)
       end.

(** overwrite the object behind a reference *)
Definition store (r : ref) (o : QueryDict) : M unit :=
  λ h, (Ok tt, <[r := o]> h).

(** a new object *)
Definition alloc (o : QueryDict) : M ref :=
  λ h, (Ok (length h), h ++ [o]).

(** *** [str] under the limit on the digits of an [int] *)





(** [for x in l: body(x)] *)
Fixpoint for_each {A} (l : list A) (body : A → M unit) : M unit :=
  match l with
  | [] => mret tt
  | x :: l' => body x;; for_each l' body
  end.

Module QD.

(** [MultiValueDict.appendlist(key, value)] on the dictionary:
    [self.setlistdefault(key).append(value)]. *)
Definition appendlist (key : string) (value : pyval)
    (d : list (string * list pyval)) : list (string * list pyval) :=
  match Dict.get key d with
  | Some list_ => Dict.setitem key (list_ ++ [value]) d
  | None => Dict.setitem key [value] d
  end.

(** [QueryDict(query_string).lists()]: the fields of
    [parse_qsl(query_string, keep_blank_values=True)] appended one by one;
    the limit [DATA_UPLOAD_MAX_NUMBER_FIELDS] of the settings is left
    out. This is how [request.GET] is built from a URL. *)
Definition parse (query_string : string) : list (string * list pyval) :=
  foldl (λ d kv, appendlist kv.1 (PyStr kv.2) d) []
        (Urllib.parse_qsl query_string true).

(** [self._assert_mutable()] *)
Definition _assert_mutable (self : ref) : M unit :=
  o ← deref self;
  if _mutable o then mret tt else raise AttributeError.

(** [QueryDict.copy()], which is [__deepcopy__]: a new mutable
    [QueryDict] with [setlist] of a copy of every key and list. *)
Definition copy (self : ref) : M ref :=
  o ← deref self;
  alloc {| data := foldl (λ d kl, Dict.setitem kl.1 kl.2 d) [] (data o);
           _mutable := true |}.

(** [QueryDict.__setitem__(key, value)]: [_assert_mutable], then
    [MultiValueDict.__setitem__], which binds [key] to [[value]]
    ([bytes_to_text] leaves a value that is not [bytes] as it is). *)
Definition __setitem__ (self : ref) (key : string) (value : pyval) : M unit :=
  _assert_mutable self;;
  o ← deref self;
  store self {| data := Dict.setitem key [value] (data o);
                _mutable := _mutable o |}.

(** [QueryDict.pop(key, default)]: [_assert_mutable], then [dict.pop];
    returns the list of [key], or [default] when [key] is missing. *)
Definition pop (self : ref) (key : string) (default : pyval)
  : M (list pyval + pyval) :=
  _assert_mutable self;;
  o ← deref self;
  store self {| data := Dict.remove key (data o);
                _mutable := _mutable o |};;
  mret (match Dict.get key (data o) with
       | Some list_ => inl list_
       | None => inr default
       end).

(** The string [QueryDict.urlencode()] builds from the dictionary:
<<
    for k, list_ in self.lists():
        output.extend(encode(k.encode(self.encoding),
                             str(v).encode(self.encoding)) for v in list_)
    return "&".join(output)
>>  *)
Definition urlencode_data (d : list (string * list pyval)) : string :=
  Str.join "&"
    (flat_map (λ kl, map (λ v, Urllib.urlencode kl.1 (py_str v)) kl.2) d).

(** [QueryDict.urlencode()] *)
Definition urlencode (self : ref) : M string :=
  o ← deref self;
  mret (urlencode_data (data o)).




End QD.

(** ** The tag *)

(** The request: [request.GET] is a reference to a [QueryDict]. *)
Record HttpRequest : Type := { GET : ref }.

(** [query_transform(request, **kwargs)] *)
Definition query_transform (request : HttpRequest)
    (kwargs : list (string * pyval)) : M string :=
  updated ← QD.copy (GET request);
  for_each kwargs (λ kv,
    let '(k, v) := kv in
    if is_not_None v then QD.__setitem__ updated k v
    else (QD.pop updated k (PyInt 0);; mret tt));;
  QD.urlencode updated.


(** The decoding of a query string into a multi-map, as the request does it
    when it builds [request.GET]. *)
Definition decode (s : string) : list (string * list pyval) := QD.parse s.

(** A heap with one immutable [QueryDict], and the request that holds it. *)
Definition request_heap (P : list (string * list pyval)) : heap :=
  [{| data := P; _mutable := false |}].
Definition the_request : HttpRequest := {| GET := 0 |}.

(** * Vocabulary of the properties *)

(** ** Percent-encoding *)

(** what [quote_plus] writes for one byte *)
Definition plus_quoter (b : ascii) : string :=
  if Urllib._ALWAYS_SAFE b then String b EmptyString
  else if Ascii.eqb b " " then "+"
  else Urllib.quoter [] b.

(** the characters [quote_plus] writes *)
Definition quoted_char (c : ascii) : bool :=
  Urllib._ALWAYS_SAFE c || Ascii.eqb c "+" || Ascii.eqb c "%".

(** the characters of a query string that [urlencode] writes *)
Definition query_char (c : ascii) : bool :=
  quoted_char c || Ascii.eqb c "=" || Ascii.eqb c "&".

(** the key part of one [key=value] piece of a query string *)
Definition piece_key (piece : string) : string :=
  default EmptyString (head (Str.split1 "=" piece)).

(** *** Percent-encoding as the specification words it *)

(** Written from the rule, with none of the functions of [Urllib]: a byte
    that is a letter, a digit or one of [_.-~] stands for itself, a space is
    written [+], any other byte is [%] and the two hexadecimal digits of its
    value, letters in upper case. *)
Definition unreserved_chars : string :=
  "ABCDEFGHIJKLMNOPQRSTUVWXYZabcdefghijklmnopqrstuvwxyz0123456789_.-~".

Definition hex_digit (n : nat) : ascii :=
  match String.get n "0123456789ABCDEF" with
  | Some c => c
  | None => "0"%char
  end.

Definition percent_encode_byte (b : ascii) : string :=
  if existsb (Ascii.eqb b) (list_ascii_of_string unreserved_chars)
  then String b EmptyString
  else if Ascii.eqb b " " then "+"
  else
    let n := nat_of_ascii b in
    String "%" (String (hex_digit (n / 16))
               (String (hex_digit (n mod 16)) EmptyString)).

Fixpoint percent_encode (s : string) : string :=
  match s with
  | EmptyString => EmptyString
  | String b s' => percent_encode_byte b +:+ percent_encode s'
  end.

(** the characters of a query string of percent-encoded pairs *)
Definition query_string_char (c : ascii) : bool :=
  existsb (Ascii.eqb c) (list_ascii_of_string unreserved_chars)
  || existsb (Ascii.eqb c) (list_ascii_of_string "+%=&").

(** ** Query strings *)

(** The (key, value) pairs a dictionary is encoded from, in order. *)
Definition fields (d : list (string * list pyval)) : list (string * string) :=
  flat_map (λ kl, map (λ v, (kl.1, py_str v)) kl.2) d.

(** what [parse_qsl] does with one piece between two [&] *)
Definition parse_field (keep_blank_values : bool) (name_value : string)
  : list (string * string) :=
  match name_value with
  | EmptyString => []
  | _ =>
      match Str.split1 "=" name_value with
      | [nv0; nv1] =>
          if negb (String.length nv1 =? 0) || keep_blank_values then
            [(Urllib.unquote (Str.replace "+" " " nv0),
              Urllib.unquote (Str.replace "+" " " nv1))]
          else []
      | [nv0] =>
          if keep_blank_values then
            [(Urllib.unquote (Str.replace "+" " " nv0), EmptyString)]
          else []
      | _ => []
      end
  end.

(** ** Multi-maps *)

(** The same dictionary with every value as [str(v)]. *)
Definition stringify (d : list (string * list pyval)) : list (string * list pyval) :=
  map (λ kl, (kl.1, map (λ v, PyStr (py_str v)) kl.2)) d.

Definition is_str (v : pyval) : Prop :=
  match v with PyStr _ => True | _ => False end.

#[global] Instance is_str_dec v : Decision (is_str v).
Proof. destruct v; simpl; apply _. Defined.

(** Query parameters as a request holds them: a dictionary (keys pairwise
    distinct) from a name to one or more values, all of them strings. *)
Definition query_params (P : list (string * list pyval)) : Prop :=
  NoDup (Dict.keys P) ∧ Forall (λ kl, kl.2 ≠ [] ∧ Forall is_str kl.2) P.

#[global] Instance query_params_dec P : Decision (query_params P).
Proof. unfold query_params. apply _. Defined.

(** Keyword arguments are a [dict]: no key twice. *)
Definition keywords (kwargs : list (string * pyval)) : Prop :=
  NoDup (Dict.keys kwargs).

#[global] Instance keywords_dec kwargs : Decision (keywords kwargs).
Proof. unfold keywords. apply _. Defined.

(** Equality of two multi-maps as dictionaries ([==] of Python): the same
    keys with the same lists, in whatever order the keys come. *)
Definition same_multimap (d1 d2 : list (string * list pyval)) : Prop :=
  ∀ k, Dict.get k d1 = Dict.get k d2.

(** ** The loop on the dictionary *)

(** one round of the loop, on the dictionary *)
Definition update (d : list (string * list pyval)) (kv : string * pyval)
  : list (string * list pyval) :=
  if is_not_None kv.2 then Dict.setitem kv.1 [kv.2] d else Dict.remove kv.1 d.

(** the dictionary of [updated] when the loop is over *)
Definition updated_data (P : list (string * list pyval))
    (kwargs : list (string * pyval)) : list (string * list pyval) :=
  foldl update (foldl (λ d kl, Dict.setitem kl.1 kl.2 d) [] P) kwargs.

(** ** Concrete requests *)

(** the parameters of [?title=test1&page=1] and of [?tag=a&tag=b&page=1] *)
Definition title_page : list (string * list pyval) := decode "title=test1&page=1".
Definition two_tags : list (string * list pyval) := decode "tag=a&tag=b&page=1".

(** ** Further vocabulary *)

(** [{**a, **b}]: the keywords [a] updated with the keywords [b]. *)
Definition merged (a b : list (string * pyval)) : list (string * pyval) :=
  foldl (λ d kv, Dict.setitem kv.1 kv.2 d) a b.

(** a string of letters, digits and [_.-~] only *)
Definition unreserved (s : string) : bool := Str.all Urllib._ALWAYS_SAFE s.

(** a digit of an escape as [quote] writes it *)
Definition upper_hex (c : ascii) : bool :=
  let n := nat_of_ascii c in
  ((48 <=? n) && (n <=? 57)) || ((65 <=? n) && (n <=? 70)).

(** [s] starts with two such digits *)
Definition two_hex (s : string) : bool :=
  match s with
  | String a (String b _) => upper_hex a && upper_hex b
  | _ => false
  end.

(** every [%] of [s] starts an escape [%XX] *)
Fixpoint well_escaped (s : string) : bool :=
  match s with
  | EmptyString => true
  | String c s' =>
      (if Ascii.eqb c "%" then two_hex s' else true) && well_escaped s'
  end.


(** * Properties *)

(** ** Runs of the model *)

Example quote_plus_ex :
  Urllib.quote_plus "a b&c=d/é~" = "a+b%26c%3Dd%2F%C3%A9~".
Proof. vm_compute. reflexivity. Qed.

Example parse_qsl_ex :
  Urllib.parse_qsl "a=1&&b=x+y%21&c&=z&a=%zz" true
  = [("a", "1"); ("b", "x y!"); ("c", EmptyString); (EmptyString, "z");
     ("a", "%zz")].
Proof. vm_compute. reflexivity. Qed.

(** The docstring of the tag: the querystring [?foo=1&bar=2]. *)
Example docstring_bar3 :
  (query_transform the_request [("bar", PyInt 3)]
     (request_heap (decode "foo=1&bar=2"))).1 = Ok "foo=1&bar=3".
Proof. vm_compute. reflexivity. Qed.

Example docstring_foo_baz :
  (query_transform the_request [("foo", PyStr "baz")]
     (request_heap (decode "foo=1&bar=2"))).1 = Ok "foo=baz&bar=2".
Proof. vm_compute. reflexivity. Qed.

Example docstring_three :
  (query_transform the_request
     [("foo", PyStr "one"); ("bar", PyStr "two"); ("baz", PyInt 99)]
     (request_heap (decode "foo=1&bar=2"))).1 = Ok "foo=one&bar=two&baz=99".
Proof. vm_compute. reflexivity. Qed.

Example remove_page :
  (query_transform the_request [("title", PyStr "x y"); ("page", PyNone)]
     (request_heap (decode "title=test1&page=2&page=3"))).1 = Ok "title=x+y".
Proof. vm_compute. reflexivity. Qed.

(** ** Strings *)

Lemma str_app_cons a (s t : string) : String a s +:+ t = String a (s +:+ t).
Proof. reflexivity. Qed.

Lemma str_app_nil_l (s : string) : EmptyString +:+ s = s.
Proof. reflexivity. Qed.

(** [simpl] leaves [+:+] folded: unfold it at a constructor first. *)
Ltac str_simpl := rewrite ?str_app_cons, ?str_app_nil_l; simpl.

Section string_facts.
Implicit Types (s t : string) (c sep : ascii).

Lemma str_app_nil_r s : s +:+ EmptyString = s.
Proof. induction s as [|a s IH]; str_simpl; [done | by f_equal]. Qed.

Lemma str_app_assoc s t u : (s +:+ t) +:+ u = s +:+ t +:+ u.
Proof. induction s as [|a s IH]; str_simpl; [done | by f_equal]. Qed.

Lemma all_app p s t : Str.all p (s +:+ t) = Str.all p s && Str.all p t.
Proof.
  induction s as [|a s IH]; str_simpl; [done |].
  rewrite IH. by destruct (p a).
Qed.

Lemma all_impl (p q : ascii → bool) s :
  (∀ a, p a = true → q a = true) → Str.all p s = true → Str.all q s = true.
Proof.
  intros Hpq. induction s as [|a s IH]; str_simpl; [done |].
  intros [Ha Hs]%andb_true_iff. rewrite (Hpq a Ha). by apply IH.
Qed.

Lemma contains_all c s :
  Str.contains c s = negb (Str.all (λ a, negb (Ascii.eqb a c)) s).
Proof.
  induction s as [|a s IH]; str_simpl; [done |].
  rewrite IH. by destruct (Ascii.eqb a c).
Qed.

Lemma contains_app c s t :
  Str.contains c (s +:+ t) = Str.contains c s || Str.contains c t.
Proof.
  induction s as [|a s IH]; [done |].
  rewrite str_app_cons. simpl. by rewrite IH, orb_assoc.
Qed.

Lemma all_not_contains p c s :
  p c = false → Str.all p s = true → Str.contains c s = false.
Proof.
  intros Hc Hs. rewrite contains_all.
  apply negb_false_iff, (all_impl p); [|done].
  intros a Ha. apply negb_true_iff, Ascii.eqb_neq. congruence.
Qed.

Lemma replace_app old new s t :
  Str.replace old new (s +:+ t)
  = Str.replace old new s +:+ Str.replace old new t.
Proof.
  induction s as [|a s IH]; [done |].
  rewrite str_app_cons. simpl. by rewrite str_app_cons, IH.
Qed.

Lemma replace_absent old new s :
  Str.contains old s = false → Str.replace old new s = s.
Proof.
  induction s as [|a s IH]; str_simpl; [done |].
  intros [Ha Hs]%orb_false_iff. by rewrite Ha, IH.
Qed.

Lemma split_absent sep s : Str.contains sep s = false → Str.split sep s = [s].
Proof.
  induction s as [|a s IH]; str_simpl; [done |].
  intros [Ha Hs]%orb_false_iff. by rewrite Ha, IH.
Qed.

Lemma split_app sep s t :
  Str.contains sep s = false →
  Str.split sep (s +:+ String sep t) = s :: Str.split sep t.
Proof.
  induction s as [|a s IH]; str_simpl.
  - by rewrite Ascii.eqb_refl.
  - intros [Ha Hs]%orb_false_iff. by rewrite Ha, IH.
Qed.

Lemma cut_app sep s t :
  Str.contains sep s = false → Str.cut sep (s +:+ String sep t) = Some (s, t).
Proof.
  induction s as [|a s IH]; str_simpl.
  - by rewrite Ascii.eqb_refl.
  - intros [Ha Hs]%orb_false_iff. by rewrite Ha, IH.
Qed.

Lemma split1_app sep s t :
  Str.contains sep s = false → Str.split1 sep (s +:+ String sep t) = [s; t].
Proof. intros Hs. unfold Str.split1. by rewrite cut_app. Qed.

Lemma join_cons (j : string) s l :
  l ≠ [] → Str.join j (s :: l) = s +:+ j +:+ Str.join j l.
Proof. by destruct l. Qed.

End string_facts.

(** ** Percent-encoding *)

Section quoting.
Import Urllib.

Lemma quote_no_space s :
  Str.contains " " s = false → quote_from_bytes s [] = quote_from_bytes s [" "%char].
Proof.
  induction s as [|a s IH]; str_simpl; [done |].
  intros [Ha Hs]%orb_false_iff. rewrite <- IH by done. f_equal.
  unfold quoter. rewrite !bool_decide_eq_false_2; [done | |].
  - rewrite list_elem_of_singleton. by apply Ascii.eqb_neq.
  - apply not_elem_of_nil.
Qed.

Lemma quoter_space_plus b :
  Str.replace " " "+" (quoter [" "%char] b) = plus_quoter b.
Proof. by destruct b as [[] [] [] [] [] [] [] []]. Qed.

Lemma quoter_no_space b :
  Ascii.eqb b " " = false → Str.contains " " (quoter [] b) = false.
Proof. destruct b as [[] [] [] [] [] [] [] []]; vm_compute; congruence. Qed.

Lemma quote_no_space_out s :
  Str.contains " " s = false → Str.contains " " (quote_from_bytes s []) = false.
Proof.
  induction s as [|a s IH]; simpl; [done |].
  intros [Ha Hs]%orb_false_iff.
  by rewrite contains_app, quoter_no_space, IH.
Qed.

Lemma quote_plus_eq s :
  quote_plus s = Str.replace " " "+" (quote_from_bytes s [" "%char]).
Proof.
  unfold quote_plus. destruct (Str.contains " " s) eqn:Hs; simpl; [done |].
  rewrite <- (quote_no_space s Hs).
  symmetry. by apply replace_absent, quote_no_space_out.
Qed.

Lemma quote_plus_cons b s :
  quote_plus (String b s) = plus_quoter b +:+ quote_plus s.
Proof. rewrite !quote_plus_eq. simpl. by rewrite replace_app, quoter_space_plus. Qed.

Lemma plus_quoter_chars b : Str.all quoted_char (plus_quoter b) = true.
Proof. by destruct b as [[] [] [] [] [] [] [] []]. Qed.

Lemma quote_plus_chars s : Str.all quoted_char (quote_plus s) = true.
Proof.
  induction s as [|b s IH]; [done |].
  by rewrite quote_plus_cons, all_app, plus_quoter_chars, IH.
Qed.

Lemma quote_plus_no c s :
  quoted_char c = false → Str.contains c (quote_plus s) = false.
Proof. intros Hc. eapply all_not_contains, quote_plus_chars. done. Qed.

Lemma unquote_plus_quoter b t :
  unquote (Str.replace "+" " " (plus_quoter b +:+ t))
  = String b (unquote (Str.replace "+" " " t)).
Proof.
  rewrite replace_app.
  by destruct b as [[] [] [] [] [] [] [] []].
Qed.

(** Decoding a quoted string gives the string back. *)
Lemma unquote_quote_plus s : unquote (Str.replace "+" " " (quote_plus s)) = s.
Proof.
  induction s as [|b s IH]; [done |].
  by rewrite quote_plus_cons, unquote_plus_quoter, IH.
Qed.

End quoting.

(** ** Query strings *)

Section query_strings.
Import Urllib.

Lemma parse_qsl_fields qs kbv :
  parse_qsl qs kbv
  = flat_map (parse_field kbv)
      (match qs with EmptyString => [] | _ => Str.split "&" qs end).
Proof.
  unfold parse_qsl. apply flat_map_ext. intros nv.
  unfold parse_field. destruct nv as [|c nv]; [done |].
  destruct (Str.split1 "=" (String c nv)) as [|nv0 [|nv1 [|? ?]]]; try done.
  by destruct kbv.
Qed.

Lemma urlencode_data_fields d :
  QD.urlencode_data d
  = Str.join "&" (map (λ kv, urlencode kv.1 kv.2) (fields d)).
Proof.
  unfold QD.urlencode_data, fields. f_equal.
  induction d as [|[k l] d IH]; simpl; [done |].
  by rewrite map_app, map_map, IH.
Qed.

Lemma urlencode_nonempty k v : urlencode k v ≠ EmptyString.
Proof.
  unfold urlencode. destruct (quote_plus k); [done |].
  by rewrite str_app_cons.
Qed.

Lemma urlencode_no_amp k v : Str.contains "&" (urlencode k v) = false.
Proof.
  unfold urlencode.
  by rewrite !contains_app, !quote_plus_no.
Qed.

Lemma parse_field_urlencode k v :
  parse_field true (urlencode k v) = [(k, v)].
Proof.
  unfold parse_field.
  destruct (urlencode k v) as [|c s] eqn:E; [by apply urlencode_nonempty in E |].
  rewrite <- E. unfold urlencode.
  change ("=" +:+ quote_plus v) with (String "=" (quote_plus v)).
  rewrite split1_app by by apply quote_plus_no.
  by rewrite orb_true_r, !unquote_quote_plus.
Qed.

Lemma join_urlencode_nonempty kv l :
  Str.join "&" (map (λ kv, urlencode kv.1 kv.2) (kv :: l)) ≠ EmptyString.
Proof.
  destruct l as [|kv' l].
  - apply urlencode_nonempty.
  - rewrite map_cons, join_cons by done.
    pose proof (urlencode_nonempty kv.1 kv.2) as Hne.
    destruct (urlencode kv.1 kv.2); [done |]. by rewrite str_app_cons.
Qed.

Lemma split_join_urlencode kv l :
  Str.split "&" (Str.join "&" (map (λ kv, urlencode kv.1 kv.2) (kv :: l)))
  = map (λ kv, urlencode kv.1 kv.2) (kv :: l).
Proof.
  revert kv. induction l as [|kv' l IH]; intros kv.
  - apply split_absent, urlencode_no_amp.
  - rewrite map_cons, join_cons by done.
    change ("&" +:+ ?s) with (String "&" s).
    rewrite split_app by apply urlencode_no_amp.
    by rewrite IH.
Qed.

(** Parsing the encoded pairs gives the pairs back, in order. *)
Lemma parse_qsl_urlencode_data d :
  parse_qsl (QD.urlencode_data d) true = fields d.
Proof.
  rewrite urlencode_data_fields, parse_qsl_fields.
  destruct (fields d) as [|kv l]; [done |].
  pose proof (join_urlencode_nonempty kv l) as Hne.
  destruct (Str.join _ _) as [|c s] eqn:E; [done |].
  rewrite <- E, split_join_urlencode. clear.
  induction (kv :: l) as [|[k v] l' IH]; [done |].
  rewrite map_cons. simpl. by rewrite parse_field_urlencode, IH.
Qed.

End query_strings.

(** ** Dictionaries *)

Section dict_facts.
Context {V : Type}.
Implicit Types (d : list (string * V)) (k : string) (v : V).

Lemma get_None d k : Dict.get k d = None ↔ k ∉ Dict.keys d.
Proof.
  unfold Dict.keys. induction d as [|[k' v'] d IH]; csimpl.
  - split; [intros _; apply not_elem_of_nil | done].
  - rewrite not_elem_of_cons. case_decide.
    + split; [done | intros [? _]; congruence].
    + rewrite IH. split; [intros; split; [congruence | done] | by intros [_ ?]].
Qed.

Lemma get_Some_elem d k v : Dict.get k d = Some v → (k, v) ∈ d.
Proof.
  induction d as [|[k' v'] d IH]; csimpl; [done |].
  case_decide; intros ?; simplify_eq; [left | right; auto].
Qed.

Lemma get_elem d k v : NoDup (Dict.keys d) → (k, v) ∈ d → Dict.get k d = Some v.
Proof.
  unfold Dict.keys. induction d as [|[k' v'] d IH]; csimpl.
  - by intros _ ?%elem_of_nil.
  - intros [Hk Hd]%NoDup_cons [?|Hin]%elem_of_cons; simplify_eq.
    + by rewrite decide_True.
    + rewrite decide_False; [by apply IH |].
      intros ->. apply Hk. apply list_elem_of_fmap. by exists (k, v).
Qed.

Lemma get_app_last d k v : k ∉ Dict.keys d → Dict.get k (d ++ [(k, v)]) = Some v.
Proof.
  unfold Dict.keys. induction d as [|[k' v'] d IH]; csimpl.
  - intros _. by rewrite decide_True.
  - intros [? ?]%not_elem_of_cons. rewrite decide_False by done. auto.
Qed.

Lemma get_setitem d k k' v :
  Dict.get k' (Dict.setitem k v d)
  = if decide (k = k') then Some v else Dict.get k' d.
Proof.
  induction d as [|[k0 v0] d IH]; csimpl.
  - repeat case_decide; congruence.
  - destruct (decide (k0 = k)) as [->|Hne]; csimpl.
    + repeat case_decide; congruence.
    + rewrite IH. repeat case_decide; congruence.
Qed.

Lemma keys_setitem_in d k v :
  k ∈ Dict.keys d → Dict.keys (Dict.setitem k v d) = Dict.keys d.
Proof.
  unfold Dict.keys. induction d as [|[k0 v0] d IH]; csimpl.
  - by intros ?%elem_of_nil.
  - intros Hin. destruct (decide (k0 = k)) as [->|Hne]; csimpl; [done |].
    apply elem_of_cons in Hin as [?|?]; [congruence |]. by rewrite IH.
Qed.

Lemma setitem_absent d k v : k ∉ Dict.keys d → Dict.setitem k v d = d ++ [(k, v)].
Proof.
  unfold Dict.keys. induction d as [|[k0 v0] d IH]; csimpl; [done |].
  intros [? ?]%not_elem_of_cons. rewrite decide_False by done. by rewrite IH.
Qed.

Lemma setitem_app_last d k v v' :
  k ∉ Dict.keys d → Dict.setitem k v' (d ++ [(k, v)]) = d ++ [(k, v')].
Proof.
  unfold Dict.keys. induction d as [|[k0 v0] d IH]; csimpl.
  - intros _. by rewrite decide_True.
  - intros [? ?]%not_elem_of_cons. rewrite decide_False by done. by rewrite IH.
Qed.

Lemma NoDup_setitem d k v :
  NoDup (Dict.keys d) → NoDup (Dict.keys (Dict.setitem k v d)).
Proof.
  intros Hd. destruct (decide (k ∈ Dict.keys d)) as [Hin|Hin].
  - by rewrite keys_setitem_in.
  - rewrite setitem_absent by done. unfold Dict.keys. rewrite fmap_app.
    apply NoDup_app. split_and!; [done | | apply NoDup_singleton].
    intros x Hx ->%list_elem_of_singleton. done.
Qed.

Lemma keys_remove_subseteq d k : Dict.keys (Dict.remove k d) ⊆ Dict.keys d.
Proof.
  unfold Dict.keys. induction d as [|[k0 v0] d IH]; csimpl; [done |].
  case_decide; csimpl; [intros x ?; by right |].
  intros x [->|?]%elem_of_cons; [left | right; by apply IH].
Qed.

Lemma NoDup_remove d k :
  NoDup (Dict.keys d) → NoDup (Dict.keys (Dict.remove k d)).
Proof.
  unfold Dict.keys. induction d as [|[k0 v0] d IH]; csimpl; [done |].
  intros [Hk Hd]%NoDup_cons. case_decide; [done |]. csimpl.
  apply NoDup_cons. split; [|auto].
  intros Hin. by apply Hk, (keys_remove_subseteq d k).
Qed.

Lemma get_remove d k k' :
  NoDup (Dict.keys d) →
  Dict.get k' (Dict.remove k d) = if decide (k = k') then None else Dict.get k' d.
Proof.
  unfold Dict.keys. induction d as [|[k0 v0] d IH]; csimpl.
  - by case_decide.
  - intros [Hk Hd]%NoDup_cons.
    destruct (decide (k0 = k)) as [->|Hne]; csimpl.
    + case_decide; [|done]. subst. by apply get_None.
    + rewrite IH by done. repeat case_decide; naive_solver.
Qed.

Lemma remove_absent d k : k ∉ Dict.keys d → Dict.remove k d = d.
Proof.
  unfold Dict.keys. induction d as [|[k0 v0] d IH]; csimpl; [done |].
  intros [? ?]%not_elem_of_cons. rewrite decide_False by done. by rewrite IH.
Qed.

Lemma remove_elem d k k' v :
  (k', v) ∈ Dict.remove k d → (k', v) ∈ d.
Proof.
  induction d as [|[k0 v0] d IH]; csimpl; [done |].
  case_decide; [by right |].
  intros [->|?]%elem_of_cons; [left | right]; auto.
Qed.

Lemma setitem_elem d k k' v v' :
  (k', v') ∈ Dict.setitem k v d → (k', v') = (k, v) ∨ (k', v') ∈ d.
Proof.
  induction d as [|[k0 v0] d IH]; csimpl.
  - intros ?%list_elem_of_singleton. by left.
  - case_decide.
    + intros [?|?]%elem_of_cons; [by left | right; by right].
    + intros [->|Hin]%elem_of_cons; [right; by left |].
      destruct (IH Hin); [by left | right; by right].
Qed.

(** Copying the bindings one by one into an empty dictionary. *)
Lemma copy_bindings d :
  NoDup (Dict.keys d) →
  foldl (λ acc kl, Dict.setitem kl.1 kl.2 acc) [] d = d.
Proof.
  intros Hd.
  enough (∀ acc, NoDup (Dict.keys acc ++ Dict.keys d) →
    foldl (λ acc kl, Dict.setitem kl.1 kl.2 acc) acc d = acc ++ d) as H
    by exact (H [] Hd).
  clear Hd. unfold Dict.keys.
  induction d as [|[k v] d IH]; intros acc Hnd; csimpl.
  - by rewrite app_nil_r.
  - apply NoDup_app in Hnd as (Hacc & Hdisj & [Hk Hd]%NoDup_cons).
    rewrite setitem_absent.
    + rewrite IH, <- (assoc (++)); [done |].
      rewrite fmap_app. csimpl. apply NoDup_app. split_and!; [|  | done].
      * apply NoDup_app. split_and!; [done | | apply NoDup_singleton].
        intros x Hx ->%list_elem_of_singleton. apply (Hdisj _ Hx). left.
      * intros x [Hx| ->%list_elem_of_singleton]%elem_of_app Hx'; [|done].
        apply (Hdisj _ Hx). by right.
    + intros Hin. apply (Hdisj _ Hin). left.
Qed.

Lemma copy_bindings_NoDup d acc :
  NoDup (Dict.keys acc) →
  NoDup (Dict.keys (foldl (λ acc kl, Dict.setitem kl.1 kl.2 acc) acc d)).
Proof.
  revert acc. induction d as [|[k v] d IH]; intros acc Hacc; csimpl; [done |].
  by apply IH, NoDup_setitem.
Qed.

End dict_facts.

(** ** Multi-maps *)

Section multimap_facts.
Implicit Types (d : list (string * list pyval)) (k : string).

Lemma keys_stringify d : Dict.keys (stringify d) = Dict.keys d.
Proof.
  unfold Dict.keys, stringify. induction d as [|[k l] d IH]; csimpl; [done |].
  by f_equal.
Qed.

Lemma get_stringify d k :
  Dict.get k (stringify d) = map (λ v, PyStr (py_str v)) <$> Dict.get k d.
Proof.
  induction d as [|[k' l] d IH]; csimpl; [done |]. by case_decide.
Qed.

Lemma stringify_str_valued d :
  Forall (λ kl, Forall is_str kl.2) d → stringify d = d.
Proof.
  induction 1 as [|[k l] d Hl _ IH]; csimpl; [done |].
  rewrite IH. do 2 f_equal. clear -Hl. simpl in Hl.
  induction Hl as [|v l Hv _ IH]; csimpl; [done |].
  rewrite IH. by destruct v.
Qed.

Lemma query_params_stringify P : query_params P → stringify P = P.
Proof.
  intros [_ HP]. apply stringify_str_valued.
  eapply Forall_impl; [exact HP |]. by intros kl [_ ?].
Qed.

Lemma appendlist_absent d k (v : pyval) :
  k ∉ Dict.keys d → QD.appendlist k v d = d ++ [(k, [v])].
Proof.
  intros Hk. unfold QD.appendlist.
  rewrite (proj2 (get_None d k)) by done. by apply setitem_absent.
Qed.

Lemma appendlist_last d k l (v : pyval) :
  k ∉ Dict.keys d → QD.appendlist k v (d ++ [(k, l)]) = d ++ [(k, l ++ [v])].
Proof.
  intros Hk. unfold QD.appendlist.
  rewrite get_app_last by done. by apply setitem_app_last.
Qed.

(** Appending the values of one key that is bound last. *)
Lemma appendlist_values d k l (vs : list pyval) :
  k ∉ Dict.keys d →
  foldl (λ acc kv, QD.appendlist kv.1 (PyStr kv.2) acc) (d ++ [(k, l)])
        (map (λ v, (k, py_str v)) vs)
  = d ++ [(k, l ++ map (λ v, PyStr (py_str v)) vs)].
Proof.
  intros Hk. revert l. induction vs as [|v vs IH]; intros l; csimpl.
  - by rewrite app_nil_r.
  - by rewrite appendlist_last, IH, <- (assoc (++)).
Qed.

Lemma parse_fields d acc :
  NoDup (Dict.keys acc ++ Dict.keys d) →
  Forall (λ kl, kl.2 ≠ []) d →
  foldl (λ acc kv, QD.appendlist kv.1 (PyStr kv.2) acc) acc (fields d)
  = acc ++ stringify d.
Proof.
  intros Hnd Hd. revert acc Hnd.
  induction Hd as [|[k l] d Hl _ IH]; intros acc Hnd; csimpl.
  - by rewrite app_nil_r.
  - unfold Dict.keys in Hnd. csimpl in Hnd.
    apply NoDup_app in Hnd as (Hacc & Hdisj & [Hk Hd]%NoDup_cons).
    assert (k ∉ Dict.keys acc) as Hkacc.
    { intros Hin. apply (Hdisj _ Hin). left. }
    destruct l as [|v l]; [done |]. csimpl.
    rewrite foldl_app. csimpl.
    rewrite appendlist_absent, appendlist_values by done.
    rewrite IH; [by rewrite <- (assoc (++)) |].
    unfold Dict.keys. rewrite fmap_app. csimpl.
    rewrite <- (assoc (++)). csimpl.
    apply NoDup_app. split_and!; [done | | by apply NoDup_cons].
    intros x Hx. apply (Hdisj _ Hx).
Qed.

(** Decoding what [urlencode] wrote gives the multi-map back, with the
    values as strings. *)
Lemma decode_urlencode_data d :
  NoDup (Dict.keys d) → Forall (λ kl, kl.2 ≠ []) d →
  decode (QD.urlencode_data d) = stringify d.
Proof.
  intros Hnd Hd. unfold decode, QD.parse.
  rewrite parse_qsl_urlencode_data. by apply (parse_fields d []).
Qed.

End multimap_facts.

(** ** The run of the tag *)

Section run.
Implicit Types (h : heap) (d : list (string * list pyval)).

Lemma lookup_last h (o : QueryDict) : (h ++ [o]) !! length h = Some o.
Proof. by apply list_lookup_middle. Qed.

Lemma insert_last h (o o' : QueryDict) : <[length h := o']> (h ++ [o]) = h ++ [o'].
Proof.
  rewrite insert_app_r_alt by done. by rewrite Nat.sub_diag.
Qed.

Lemma loop_run h d (kwargs : list (string * pyval)) :
  for_each kwargs (λ kv,
    let '(k, v) := kv in
    if is_not_None v then QD.__setitem__ (length h) k v
    else (QD.pop (length h) k (PyInt 0);; mret tt))
    (h ++ [{| data := d; _mutable := true |}])
  = (Ok tt, h ++ [{| data := foldl update d kwargs; _mutable := true |}]).
Proof.
  revert d. induction kwargs as [|[k v] kwargs IH]; intros d; [done |].
  change (foldl update d ((k, v) :: kwargs))
    with (foldl update (if is_not_None v then Dict.setitem k [v] d
                        else Dict.remove k d) kwargs).
  simpl. unfold mbind, M_bind at 1.
  destruct (is_not_None v).
  - unfold QD.__setitem__, QD._assert_mutable, deref, store, mbind, M_bind,
      mret, M_ret.
    rewrite lookup_last. simpl. rewrite lookup_last, insert_last. simpl.
    by rewrite IH.
  - unfold QD.pop, QD._assert_mutable, deref, store, mbind, M_bind,
      mret, M_ret.
    rewrite lookup_last. simpl. rewrite lookup_last, insert_last. simpl.
    by rewrite IH.
Qed.

(** The tag returns the encoding of the updated copy; the copy is the one
    new object of the heap. *)
Lemma query_transform_run request kwargs h (o : QueryDict) :
  h !! GET request = Some o →
  query_transform request kwargs h
  = (Ok (QD.urlencode_data (updated_data (data o) kwargs)),
     h ++ [{| data := updated_data (data o) kwargs; _mutable := true |}]).
Proof.
  intros Ho. unfold query_transform, QD.copy, deref, alloc.
  unfold mbind at 1, M_bind at 1. unfold mbind at 1, M_bind at 1.
  rewrite Ho. simpl.
  unfold mbind at 1, M_bind at 1. rewrite loop_run.
  unfold QD.urlencode, deref, mbind, M_bind, mret, M_ret.
  by rewrite lookup_last.
Qed.

End run.

(** ** The updated dictionary *)

Section updated.
Implicit Types (d P : list (string * list pyval)) (k : string)
  (kwargs : list (string * pyval)).

Lemma update_NoDup d kv : NoDup (Dict.keys d) → NoDup (Dict.keys (update d kv)).
Proof.
  intros Hd. unfold update.
  destruct (is_not_None kv.2); [by apply NoDup_setitem | by apply NoDup_remove].
Qed.

Lemma updates_NoDup d kwargs :
  NoDup (Dict.keys d) → NoDup (Dict.keys (foldl update d kwargs)).
Proof.
  revert d. induction kwargs as [|kv kwargs IH]; intros d Hd; simpl; [done |].
  by apply IH, update_NoDup.
Qed.

Lemma update_nonempty d kv :
  Forall (λ kl, kl.2 ≠ []) d → Forall (λ kl, kl.2 ≠ []) (update d kv).
Proof.
  rewrite !Forall_forall. intros Hd [k l] Hin. unfold update in Hin.
  destruct (is_not_None kv.2).
  - apply setitem_elem in Hin as [?|Hin]; [by simplify_eq | by apply Hd in Hin].
  - apply remove_elem in Hin. by apply Hd in Hin.
Qed.

Lemma updates_nonempty d kwargs :
  Forall (λ kl, kl.2 ≠ []) d → Forall (λ kl, kl.2 ≠ []) (foldl update d kwargs).
Proof.
  revert d. induction kwargs as [|kv kwargs IH]; intros d Hd; simpl; [done |].
  by apply IH, update_nonempty.
Qed.

Lemma get_update d k kv :
  NoDup (Dict.keys d) →
  Dict.get k (update d kv)
  = if decide (kv.1 = k) then (if is_not_None kv.2 then Some [kv.2] else None)
    else Dict.get k d.
Proof.
  intros Hd. unfold update.
  destruct (is_not_None kv.2); [apply get_setitem | by apply get_remove].
Qed.

(** What the loop leaves under a key: the one value of its keyword,
    nothing when the keyword is [None], the old list without keyword. *)
Lemma get_updates d k kwargs :
  NoDup (Dict.keys d) → keywords kwargs →
  Dict.get k (foldl update d kwargs)
  = match Dict.get k kwargs with
    | Some v => if is_not_None v then Some [v] else None
    | None => Dict.get k d
    end.
Proof.
  unfold keywords, Dict.keys. intros Hd Hkw. revert d Hd.
  induction kwargs as [|[k0 v0] kwargs IH]; intros d Hd; csimpl; [done |].
  csimpl in Hkw. apply NoDup_cons in Hkw as [Hk0 Hkw].
  rewrite IH by (done || by apply update_NoDup).
  rewrite get_update by done. csimpl.
  case_decide; [|done]. subst k0.
  by rewrite (proj2 (get_None kwargs k)).
Qed.

Lemma updated_data_params P kwargs :
  NoDup (Dict.keys P) → updated_data P kwargs = foldl update P kwargs.
Proof. intros HP. unfold updated_data. by rewrite copy_bindings. Qed.

(** The string the tag returns decodes to the updated dictionary. *)
Lemma decode_updated P kwargs :
  query_params P →
  decode (QD.urlencode_data (updated_data P kwargs))
  = stringify (foldl update P kwargs).
Proof.
  intros [HP HP']. rewrite updated_data_params by done.
  apply decode_urlencode_data; [by apply updates_NoDup |].
  apply updates_nonempty. eapply Forall_impl; [exact HP' |]. by intros kl [? _].
Qed.

(** A keyword that removes a key the dictionary lacks changes nothing. *)
Lemma updates_remove_absent d k kwargs :
  keywords kwargs → k ∉ Dict.keys d → (k, PyNone) ∈ kwargs →
  foldl update d (Dict.remove k kwargs) = foldl update d kwargs.
Proof.
  unfold keywords, Dict.keys. intros Hkw. revert d.
  induction kwargs as [|[k0 v0] kwargs IH]; intros d Hk Hin; csimpl; [done |].
  csimpl in Hkw. apply NoDup_cons in Hkw as [Hk0 Hkw].
  destruct (decide (k0 = k)) as [->|Hne].
  - apply elem_of_cons in Hin as [?|Hin]; simplify_eq.
    + change (update d (k, PyNone)) with (Dict.remove k d).
      by rewrite remove_absent.
    + destruct Hk0. apply list_elem_of_fmap. by exists (k, PyNone).
  - apply elem_of_cons in Hin as [?|Hin]; [congruence |]. csimpl.
    apply IH; [done | | done].
    unfold update. csimpl. destruct (is_not_None v0).
    + apply get_None. rewrite get_setitem, decide_False by done.
      by apply get_None.
    + intros Hin'. by apply Hk, (keys_remove_subseteq d k0).
Qed.

Lemma get_permutation (kwargs kwargs' : list (string * pyval)) k :
  keywords kwargs → kwargs ≡ₚ kwargs' → Dict.get k kwargs = Dict.get k kwargs'.
Proof.
  intros Hkw Hp.
  assert (keywords kwargs') as Hkw'.
  { unfold keywords, Dict.keys in *. by rewrite <- Hp. }
  destruct (Dict.get k kwargs) as [v|] eqn:E.
  - symmetry. apply get_elem; [done |]. rewrite <- Hp. by apply get_Some_elem.
  - symmetry. apply get_None. apply get_None in E.
    unfold Dict.keys in *. by rewrite <- Hp.
Qed.

(** The pairs of one key among the encoded pairs: its values, in order. *)
Lemma filter_fields d k l :
  NoDup (Dict.keys d) → Dict.get k d = Some l →
  filter (λ kv, kv.1 = k) (fields d) = map (λ v, (k, py_str v)) l.
Proof.
  assert (∀ k' (l' : list pyval), k' ≠ k →
    filter (λ kv : string * string, kv.1 = k) (map (λ v, (k', py_str v)) l') = [])
    as Hother.
  { intros k' l' Hne. induction l' as [|v l' IH]; csimpl; [done |].
    by rewrite filter_cons_False. }
  assert (∀ l' : list pyval,
    filter (λ kv : string * string, kv.1 = k) (map (λ v, (k, py_str v)) l')
    = map (λ v, (k, py_str v)) l') as Hsame.
  { intros l'. induction l' as [|v l' IH]; csimpl; [done |].
    rewrite filter_cons_True by done. by rewrite IH. }
  unfold Dict.keys, fields.
  induction d as [|[k0 l0] d IH]; csimpl; [done |].
  intros [Hk0 Hd]%NoDup_cons. rewrite filter_app. case_decide.
  - intros ?; simplify_eq. rewrite Hsame.
    enough (filter (λ kv : string * string, kv.1 = k)
              (flat_map (λ kl, map (λ v, (kl.1, py_str v)) kl.2) d) = []) as ->
      by apply app_nil_r.
    clear IH Hd. induction d as [|[k1 l1] d IH]; csimpl; [done |].
    csimpl in Hk0. apply not_elem_of_cons in Hk0 as [? ?].
    rewrite filter_app, Hother by done. by apply IH.
  - intros Hget. rewrite Hother by done. by apply IH.
Qed.

End updated.

(** ** What a decoded query string is, and what an encoded one looks like *)

Section decoded.
Import Urllib.
Implicit Types (d : list (string * list pyval)) (k : string).

Lemma appendlist_params d k (s : string) :
  query_params d → query_params (QD.appendlist k (PyStr s) d).
Proof.
  intros [Hnd Hd]. unfold QD.appendlist. split.
  - destruct (Dict.get k d); by apply NoDup_setitem.
  - rewrite Forall_forall in Hd. apply Forall_forall. intros [k' l'] Hin.
    destruct (Dict.get k d) as [l|] eqn:E.
    + apply setitem_elem in Hin as [?|Hin]; [|by apply Hd]. simplify_eq.
      apply get_Some_elem, Hd in E as [_ Hl]. simpl in *. split.
      * by destruct l.
      * apply Forall_app. split; [done |]. by repeat constructor.
    + apply setitem_elem in Hin as [?|Hin]; [|by apply Hd]. simplify_eq.
      simpl. split; [done |]. by repeat constructor.
Qed.

(** Whatever the string, decoding it gives query parameters. *)
Lemma decode_params (s : string) : query_params (decode s).
Proof.
  unfold decode, QD.parse.
  assert (query_params []) as Hnil by (split; constructor).
  revert Hnil. generalize (@nil (string * list pyval)).
  induction (parse_qsl s true) as [|[k v] l IH]; intros acc Hacc; simpl; [done |].
  by apply IH, appendlist_params.
Qed.

Lemma quote_plus_inj (s t : string) : quote_plus s = quote_plus t → s = t.
Proof.
  intros E. rewrite <- (unquote_quote_plus s), <- (unquote_quote_plus t).
  by rewrite E.
Qed.

Lemma piece_key_urlencode k (v : string) : piece_key (urlencode k v) = quote_plus k.
Proof.
  unfold piece_key, urlencode.
  change ("=" +:+ quote_plus v) with (String "=" (quote_plus v)).
  by rewrite split1_app by by apply quote_plus_no.
Qed.

Lemma filter_pieces k (l : list (string * string)) :
  filter (λ piece, piece_key piece = quote_plus k)
         (map (λ kv, urlencode kv.1 kv.2) l)
  = map (λ kv, urlencode kv.1 kv.2) (filter (λ kv, kv.1 = k) l).
Proof.
  induction l as [|[k' v'] l IH]; csimpl; [done |].
  destruct (decide (k' = k)) as [->|Hne].
  - rewrite !filter_cons_True by (done || apply piece_key_urlencode).
    csimpl. by rewrite IH.
  - rewrite !filter_cons_False; [done | done |].
    rewrite piece_key_urlencode. by intros ?%quote_plus_inj.
Qed.

(** The pieces of the encoded string between two [&]: one per pair. *)
Lemma split_urlencode_data d :
  fields d ≠ [] →
  Str.split "&" (QD.urlencode_data d)
  = map (λ kv, urlencode kv.1 kv.2) (fields d).
Proof.
  intros Hne. rewrite urlencode_data_fields.
  destruct (fields d) as [|kv l]; [done |]. apply split_join_urlencode.
Qed.

Lemma urlencode_chars k (v : string) : Str.all query_char (urlencode k v) = true.
Proof.
  assert (∀ s, Str.all query_char (quote_plus s) = true) as Hq.
  { intros s. apply (all_impl quoted_char); [|apply quote_plus_chars].
    intros a Ha. unfold query_char. by rewrite Ha. }
  unfold urlencode. by rewrite !all_app, !Hq.
Qed.

Lemma urlencode_data_chars d : Str.all query_char (QD.urlencode_data d) = true.
Proof.
  rewrite urlencode_data_fields.
  induction (fields d) as [|kv [|kv' l] IH]; [done | apply urlencode_chars |].
  rewrite map_cons, join_cons by done.
  by rewrite !all_app, urlencode_chars, IH.
Qed.

End decoded.

(** * The limit on the digits of an [int] *)

Section digits.





End digits.

Section under_limit.
Implicit Types (h : heap) (request : HttpRequest)
  (d P : list (string * list pyval)) (kwargs : list (string * pyval))
  (k : string) (v : pyval) (n : nat).









(** The spec's encoding is what [quote_plus] writes. *)
Lemma plus_quoter_percent_encode b : plus_quoter b = percent_encode_byte b.
Proof. by destruct b as [[] [] [] [] [] [] [] []]. Qed.

Lemma quote_plus_percent_encode (s : string) :
  Urllib.quote_plus s = percent_encode s.
Proof.
  induction s as [|b s IH]; [done |].
  rewrite quote_plus_cons, plus_quoter_percent_encode, IH. done.
Qed.

Lemma query_char_spec c : query_char c = query_string_char c.
Proof. by destruct c as [[] [] [] [] [] [] [] []]. Qed.

End under_limit.

(** * The tag on a request *)

Section tag.
Implicit Types (h : heap) (request : HttpRequest)
  (P : list (string * list pyval)) (kwargs : list (string * pyval))
  (k : string) (v : pyval).

Lemma is_not_None_true v : v ≠ PyNone → is_not_None v = true.
Proof. by destruct v. Qed.

(** The run of the tag on a request whose [GET] holds [P]. *)
Lemma run_on_params h request P kwargs :
  data <$> h !! GET request = Some P →
  query_transform request kwargs h
  = (Ok (QD.urlencode_data (updated_data P kwargs)),
     h ++ [{| data := updated_data P kwargs; _mutable := true |}]).
Proof.
  intros (o & Ho & ->)%fmap_Some. by apply query_transform_run.
Qed.

(** What the decoded result holds under a key. *)
Lemma get_decoded P kwargs k :
  query_params P → keywords kwargs →
  Dict.get k (decode (QD.urlencode_data (updated_data P kwargs)))
  = match Dict.get k kwargs with
    | Some v => if is_not_None v then Some [PyStr (py_str v)] else None
    | None => Dict.get k P
    end.
Proof.
  intros HP Hkw. rewrite decode_updated, get_stringify by done.
  rewrite get_updates by (done || apply HP).
  destruct (Dict.get k kwargs) as [v|]; [by destruct (is_not_None v) |].
  by rewrite <- get_stringify, query_params_stringify.
Qed.

(** C1. With no keyword [None]: the decoded result binds every keyword to
    the one string of its value, and every other key of the parameters to
    the values it had. *)
Theorem overrides_merge h request P kwargs :
  data <$> h !! GET request = Some P →
  query_params P → keywords kwargs →
  Forall (λ kv, kv.2 ≠ PyNone) kwargs →
  ∃ s h', query_transform request kwargs h = (Ok s, h')
    ∧ (∀ k v, (k, v) ∈ kwargs → Dict.get k (decode s) = Some [PyStr (py_str v)])
    ∧ (∀ k, k ∉ Dict.keys kwargs → Dict.get k (decode s) = Dict.get k P).
Proof.
  intros Hh HP Hkw Hnone. eexists _, _.
  split; [by apply run_on_params |]. split.
  - intros k v Hin. rewrite get_decoded, (get_elem kwargs k v) by done.
    rewrite Forall_forall in Hnone.
    by rewrite is_not_None_true by exact (Hnone _ Hin).
  - intros k Hk. rewrite get_decoded by done.
    by rewrite (proj2 (get_None kwargs k)).
Qed.

(** C2. A keyword [None] removes its key from the decoded result, in the
    parameters or not; when the key is not in the parameters, the tag
    returns what it returns for the other keywords alone. *)
Theorem None_removes h request P kwargs k :
  data <$> h !! GET request = Some P →
  query_params P → keywords kwargs →
  (k, PyNone) ∈ kwargs →
  ∃ s h', query_transform request kwargs h = (Ok s, h')
    ∧ Dict.get k (decode s) = None
    ∧ (k ∉ Dict.keys (decode s))
    ∧ (k ∉ Dict.keys P →
       query_transform request (Dict.remove k kwargs) h = (Ok s, h')).
Proof.
  intros Hh HP Hkw Hin. eexists _, _.
  split; [by apply run_on_params |].
  assert (Dict.get k (decode (QD.urlencode_data (updated_data P kwargs))) = None)
    as Hget.
  { by rewrite get_decoded, (get_elem kwargs k PyNone) by done. }
  split_and!; [done | by apply get_None |].
  intros Hk. rewrite (run_on_params h request P) by done.
  destruct HP as [HP _]. rewrite !updated_data_params by done.
  by rewrite updates_remove_absent.
Qed.

(** C3. A key of the parameters with several values: a keyword with a
    value other than [None] leaves it the one value of the keyword;
    without a keyword it keeps its values, and the pieces of the returned
    string with that key are one [key=value] per value, in order. *)
Theorem multiple_values h request P kwargs k (vs : list pyval) :
  data <$> h !! GET request = Some P →
  query_params P → keywords kwargs →
  Dict.get k P = Some vs → 1 < length vs →
  ∃ s h', query_transform request kwargs h = (Ok s, h')
    ∧ (∀ v, (k, v) ∈ kwargs → v ≠ PyNone →
         Dict.get k (decode s) = Some [PyStr (py_str v)])
    ∧ (k ∉ Dict.keys kwargs →
         Dict.get k (decode s) = Some vs
         ∧ filter (λ piece, piece_key piece = Urllib.quote_plus k)
                  (Str.split "&" s)
           = map (λ v, Urllib.urlencode k (py_str v)) vs).
Proof.
  intros Hh HP Hkw Hvs Hlen. eexists _, _.
  split; [by apply run_on_params |]. split.
  - intros v Hin Hv. rewrite get_decoded, (get_elem kwargs k v) by done.
    by rewrite is_not_None_true.
  - intros Hk.
    assert (Dict.get k (foldl update P kwargs) = Some vs) as Hget.
    { rewrite get_updates by (done || apply HP).
      by rewrite (proj2 (get_None kwargs k)). }
    split.
    + rewrite get_decoded by done. by rewrite (proj2 (get_None kwargs k)).
    + destruct HP as [HP _]. rewrite updated_data_params by done.
      pose proof (filter_fields _ k vs (updates_NoDup P kwargs HP) Hget) as Hf.
      rewrite split_urlencode_data, filter_pieces, Hf, map_map; [done |].
      intros Hnil. rewrite Hnil in Hf. destruct vs; [simpl in Hlen; lia | done].
Qed.

(** C4. With no keyword the returned string decodes to the parameters. *)
Theorem no_keywords_roundtrip h request P :
  data <$> h !! GET request = Some P →
  query_params P →
  ∃ s h', query_transform request [] h = (Ok s, h') ∧ decode s = P.
Proof.
  intros Hh HP. eexists _, _.
  split; [by apply run_on_params |].
  rewrite decode_updated by done. by apply query_params_stringify.
Qed.

(** C5. The tag with no keyword, on a request that holds the decoding of
    a result of the tag, returns a string with that same decoding. *)
Theorem reencoding_idempotent h request P kwargs :
  data <$> h !! GET request = Some P →
  ∃ s h', query_transform request kwargs h = (Ok s, h')
    ∧ ∀ h2 request2,
        data <$> h2 !! GET request2 = Some (decode s) →
        ∃ s2 h2', query_transform request2 [] h2 = (Ok s2, h2')
          ∧ decode s2 = decode s.
Proof.
  intros Hh. eexists _, _.
  split; [by apply run_on_params |].
  intros h2 request2 Hh2. eexists _, _.
  split; [by apply run_on_params |].
  rewrite decode_updated by apply decode_params.
  apply query_params_stringify, decode_params.
Qed.

(** C6. The tag leaves the [QueryDict] of the request, and every object
    the heap had, as it was: it writes to its copy only. *)
Theorem request_not_mutated h request kwargs (o : QueryDict) :
  h !! GET request = Some o →
  ∃ s h', query_transform request kwargs h = (Ok s, h')
    ∧ h' !! GET request = Some o
    ∧ ∀ r o', h !! r = Some o' → h' !! r = Some o'.
Proof.
  intros Ho. eexists _, _.
  split; [by apply query_transform_run |].
  split; [by apply lookup_app_l_Some |].
  intros r o' Hr. by apply lookup_app_l_Some.
Qed.


(** C8. The returned string is the pairs [key=value] of the updated copy
    joined by [&], key and value percent-encoded as the specification words
    it; [parse_qsl] reads the pairs back from it; it holds no character
    besides those of the encoding, [=] and [&], so no [?], and does not
    start with one. *)
Theorem result_is_query_string h request P kwargs :
  data <$> h !! GET request = Some P →
  ∃ s h', query_transform request kwargs h = (Ok s, h')
    ∧ s = String.concat "&"
            (map (λ kv, percent_encode kv.1 +:+ "=" +:+ percent_encode kv.2)
                 (fields (updated_data P kwargs)))
    ∧ Urllib.parse_qsl s true = fields (updated_data P kwargs)
    ∧ Str.all query_string_char s = true
    ∧ Str.contains "?" s = false
    ∧ Str.startswith "?" s = false.
Proof.
  intros Hh. eexists _, _.
  split; [by apply run_on_params |].
  split.
  { rewrite urlencode_data_fields. unfold Str.join. f_equal.
    apply map_ext. intros [k v]. unfold Urllib.urlencode. simpl.
    by rewrite !quote_plus_percent_encode. }
  split; [apply parse_qsl_urlencode_data |].
  pose proof (urlencode_data_chars (updated_data P kwargs)) as Hc.
  assert (Str.contains "?" (QD.urlencode_data (updated_data P kwargs)) = false)
    as Hq by (by apply (all_not_contains query_char)).
  split.
  { apply (all_impl query_char); [|done]. intros a. by rewrite query_char_spec. }
  split; [done |].
  destruct (QD.urlencode_data _) as [|c s]; [done |].
  simpl in *. by apply orb_false_iff in Hq as [? _].
Qed.

(** C9. A keyword with any value but [None], the empty string, [0] and
    [False] among them, sets its key: the decoded result binds the key to
    the one string of the value, the empty string for the empty string. *)
Theorem only_None_removes h request P kwargs k v :
  data <$> h !! GET request = Some P →
  query_params P → keywords kwargs →
  (k, v) ∈ kwargs → v ≠ PyNone →
  ∃ s h', query_transform request kwargs h = (Ok s, h')
    ∧ Dict.get k (decode s) = Some [PyStr (py_str v)]
    ∧ (k ∈ Dict.keys (decode s))
    ∧ (v = PyStr EmptyString →
       Dict.get k (decode s) = Some [PyStr EmptyString])
    ∧ (v = PyInt 0 → Dict.get k (decode s) = Some [PyStr "0"])
    ∧ (v = PyBool false → Dict.get k (decode s) = Some [PyStr "False"]).
Proof.
  intros Hh HP Hkw Hin Hv. eexists _, _.
  split; [by apply run_on_params |].
  assert (Dict.get k (decode (QD.urlencode_data (updated_data P kwargs)))
          = Some [PyStr (py_str v)]) as Hget.
  { rewrite get_decoded, (get_elem kwargs k v) by done.
    by rewrite is_not_None_true. }
  split_and!; [done | | by intros -> .. ].
  destruct (decide (k ∈ Dict.keys (decode (QD.urlencode_data (updated_data P kwargs)))))
    as [|Hk]; [done |].
  apply get_None in Hk. congruence.
Qed.

(** C10. Keywords in another order give a result that decodes to the same
    multi-map. *)
Theorem keyword_order_irrelevant h request P kwargs kwargs' :
  data <$> h !! GET request = Some P →
  query_params P → keywords kwargs →
  kwargs ≡ₚ kwargs' →
  ∃ s s' h1 h2,
    query_transform request kwargs h = (Ok s, h1)
    ∧ query_transform request kwargs' h = (Ok s', h2)
    ∧ same_multimap (decode s) (decode s').
Proof.
  intros Hh HP Hkw Hp.
  assert (keywords kwargs') as Hkw'.
  { unfold keywords, Dict.keys in *. by rewrite <- Hp. }
  eexists _, _, _, _.
  split; [by apply run_on_params |]. split; [by apply run_on_params |].
  intros k. rewrite !get_decoded by done.
  by rewrite (get_permutation kwargs kwargs').
Qed.

End tag.

(** * The properties on concrete requests *)

(** closes a decidable proposition on closed terms by evaluation *)
Ltac decided := apply (bool_decide_unpack _); vm_compute; exact I.

Example title_page_eq :
  title_page = [("title", [PyStr "test1"]); ("page", [PyStr "1"])].
Proof. vm_compute. reflexivity. Qed.

Example two_tags_eq :
  two_tags = [("tag", [PyStr "a"; PyStr "b"]); ("page", [PyStr "1"])].
Proof. vm_compute. reflexivity. Qed.

Lemma overrides_merge_witness :
  query_params title_page ∧ keywords [("page", PyInt 2); ("q", PyStr "a b")]
  ∧ ∃ s h', query_transform the_request [("page", PyInt 2); ("q", PyStr "a b")]
              (request_heap title_page) = (Ok s, h')
      ∧ (∀ k v, (k, v) ∈ [("page", PyInt 2); ("q", PyStr "a b")] →
           Dict.get k (decode s) = Some [PyStr (py_str v)])
      ∧ (∀ k, k ∉ Dict.keys [("page", PyInt 2); ("q", PyStr "a b")] →
           Dict.get k (decode s) = Dict.get k title_page).
Proof.
  split; [decided |]. split; [decided |].
  apply (overrides_merge (request_heap title_page) the_request title_page
           [("page", PyInt 2); ("q", PyStr "a b")]);
    [reflexivity | decided | decided | decided].
Defined.

Lemma None_removes_witness :
  query_params title_page ∧ keywords [("title", PyStr "x"); ("page", PyNone)]
  ∧ ∃ s h', query_transform the_request [("title", PyStr "x"); ("page", PyNone)]
              (request_heap title_page) = (Ok s, h')
      ∧ Dict.get "page" (decode s) = None
      ∧ ("page" ∉ Dict.keys (decode s))
      ∧ ("page" ∉ Dict.keys title_page →
         query_transform the_request
           (Dict.remove "page" [("title", PyStr "x"); ("page", PyNone)])
           (request_heap title_page) = (Ok s, h')).
Proof.
  split; [decided |]. split; [decided |].
  apply (None_removes (request_heap title_page) the_request title_page
           [("title", PyStr "x"); ("page", PyNone)] "page");
    [reflexivity | decided | decided | decided].
Defined.

Lemma multiple_values_witness :
  query_params two_tags ∧ keywords [("page", PyInt 2)]
  ∧ Dict.get "tag" two_tags = Some [PyStr "a"; PyStr "b"]
  ∧ ∃ s h', query_transform the_request [("page", PyInt 2)]
              (request_heap two_tags) = (Ok s, h')
      ∧ (∀ v, ("tag", v) ∈ [("page", PyInt 2)] → v ≠ PyNone →
           Dict.get "tag" (decode s) = Some [PyStr (py_str v)])
      ∧ ("tag" ∉ Dict.keys [("page", PyInt 2)] →
           Dict.get "tag" (decode s) = Some [PyStr "a"; PyStr "b"]
           ∧ filter (λ piece, piece_key piece = Urllib.quote_plus "tag")
                    (Str.split "&" s)
             = map (λ v, Urllib.urlencode "tag" (py_str v)) [PyStr "a"; PyStr "b"]).
Proof.
  split; [decided |]. split; [decided |]. split; [reflexivity |].
  apply (multiple_values (request_heap two_tags) the_request two_tags
           [("page", PyInt 2)] "tag" [PyStr "a"; PyStr "b"]);
    [reflexivity | decided | decided | reflexivity | simpl; lia].
Defined.

Lemma no_keywords_roundtrip_witness :
  query_params two_tags
  ∧ ∃ s h', query_transform the_request [] (request_heap two_tags) = (Ok s, h')
      ∧ decode s = two_tags.
Proof.
  split; [decided |].
  apply (no_keywords_roundtrip (request_heap two_tags) the_request two_tags);
    [reflexivity | decided].
Defined.

Lemma reencoding_idempotent_witness :
  ∃ s h', query_transform the_request [("page", PyNone); ("q", PyBool true)]
            (request_heap two_tags) = (Ok s, h')
    ∧ ∀ h2 request2,
        data <$> h2 !! GET request2 = Some (decode s) →
        ∃ s2 h2', query_transform request2 [] h2 = (Ok s2, h2')
          ∧ decode s2 = decode s.
Proof.
  apply (reencoding_idempotent (request_heap two_tags) the_request two_tags
           [("page", PyNone); ("q", PyBool true)]).
  reflexivity.
Defined.

Lemma request_not_mutated_witness :
  ∃ s h', query_transform the_request [("tag", PyStr "c"); ("page", PyNone)]
            (request_heap two_tags) = (Ok s, h')
    ∧ h' !! GET the_request = Some {| data := two_tags; _mutable := false |}
    ∧ ∀ r o', request_heap two_tags !! r = Some o' → h' !! r = Some o'.
Proof.
  apply (request_not_mutated (request_heap two_tags) the_request
           [("tag", PyStr "c"); ("page", PyNone)]
           {| data := two_tags; _mutable := false |}).
  reflexivity.
Defined.



Lemma result_is_query_string_witness :
  ∃ s h', query_transform the_request [("q", PyStr "a&b=c ?")]
            (request_heap title_page) = (Ok s, h')
    ∧ s = String.concat "&"
            (map (λ kv, percent_encode kv.1 +:+ "=" +:+ percent_encode kv.2)
                 (fields (updated_data title_page [("q", PyStr "a&b=c ?")])))
    ∧ Urllib.parse_qsl s true
      = fields (updated_data title_page [("q", PyStr "a&b=c ?")])
    ∧ Str.all query_string_char s = true
    ∧ Str.contains "?" s = false
    ∧ Str.startswith "?" s = false.
Proof.
  apply (result_is_query_string (request_heap title_page) the_request title_page
           [("q", PyStr "a&b=c ?")]).
  reflexivity.
Defined.

Example percent_encode_ex :
  percent_encode "a b&c=d/é~" = "a+b%26c%3Dd%2F%C3%A9~".
Proof. vm_compute. reflexivity. Qed.

Lemma only_None_removes_witness :
  query_params title_page
  ∧ keywords [("title", PyStr EmptyString); ("page", PyInt 0)]
  ∧ ∃ s h', query_transform the_request
              [("title", PyStr EmptyString); ("page", PyInt 0)]
              (request_heap title_page) = (Ok s, h')
      ∧ Dict.get "title" (decode s) = Some [PyStr (py_str (PyStr EmptyString))]
      ∧ ("title" ∈ Dict.keys (decode s))
      ∧ (PyStr EmptyString = PyStr EmptyString →
         Dict.get "title" (decode s) = Some [PyStr EmptyString])
      ∧ (PyStr EmptyString = PyInt 0 →
         Dict.get "title" (decode s) = Some [PyStr "0"])
      ∧ (PyStr EmptyString = PyBool false →
         Dict.get "title" (decode s) = Some [PyStr "False"]).
Proof.
  split; [decided |]. split; [decided |].
  apply (only_None_removes (request_heap title_page) the_request title_page
           [("title", PyStr EmptyString); ("page", PyInt 0)]
           "title" (PyStr EmptyString));
    [reflexivity | decided | decided | decided | discriminate].
Defined.

Lemma keyword_order_irrelevant_witness :
  query_params title_page ∧ keywords [("a", PyInt 1); ("page", PyNone)]
  ∧ [("a", PyInt 1); ("page", PyNone)] ≡ₚ [("page", PyNone); ("a", PyInt 1)]
  ∧ ∃ s s' h1 h2,
      query_transform the_request [("a", PyInt 1); ("page", PyNone)]
        (request_heap title_page) = (Ok s, h1)
      ∧ query_transform the_request [("page", PyNone); ("a", PyInt 1)]
          (request_heap title_page) = (Ok s', h2)
      ∧ same_multimap (decode s) (decode s').
Proof.
  split; [decided |]. split; [decided |]. split; [decided |].
  apply (keyword_order_irrelevant (request_heap title_page) the_request title_page
           [("a", PyInt 1); ("page", PyNone)] [("page", PyNone); ("a", PyInt 1)]);
    [reflexivity | decided | decided | decided].
Defined.

(** ** The scenarios of the tag's documentation *)

Example page_two :
  (query_transform the_request [("page", PyInt 2)] (request_heap title_page)).1
  = Ok "title=test1&page=2".
Proof. vm_compute. reflexivity. Qed.

Example add_to_empty :
  (query_transform the_request [("a", PyInt 5)] (request_heap [])).1 = Ok "a=5".
Proof. vm_compute. reflexivity. Qed.

Example remove_only_key :
  (query_transform the_request [("a", PyNone)] (request_heap (decode "a=5"))).1
  = Ok EmptyString.
Proof. vm_compute. reflexivity. Qed.

Example empty_string_stays :
  (query_transform the_request [("title", PyStr EmptyString)] (request_heap title_page)).1
  = Ok "title=&page=1".
Proof. vm_compute. reflexivity. Qed.

(** The order of the keywords shows in the string, not in the multi-map. *)
Example keyword_order_in_string :
  (query_transform the_request [("a", PyInt 1); ("b", PyInt 2)] (request_heap [])).1
  = Ok "a=1&b=2"
  ∧ (query_transform the_request [("b", PyInt 2); ("a", PyInt 1)] (request_heap [])).1
    = Ok "b=2&a=1".
Proof. split; vm_compute; reflexivity. Qed.

(** Without the copy the first assignment would raise: the [QueryDict] of a
    request is immutable. *)
Example request_GET_immutable :
  (QD.__setitem__ (GET the_request) "page" (PyInt 2) (request_heap title_page)).1
  = Raise AttributeError.
Proof. vm_compute. reflexivity. Qed.

(** * More on the run of the tag *)

(** ** Lists and dictionaries *)

Section filter_facts.
Context {A : Type}.

Lemma filter_iff_elem (P1 P2 : A → Prop)
    `{!∀ x, Decision (P1 x)} `{!∀ x, Decision (P2 x)} (l : list A) :
  (∀ x, x ∈ l → (P1 x ↔ P2 x)) → filter P1 l = filter P2 l.
Proof.
  induction l as [|x l IH]; intros Hl; [done |].
  assert (filter P1 l = filter P2 l) as IH'.
  { apply IH. intros y Hy. apply Hl. by right. }
  destruct (decide (P1 x)) as [H1|H1].
  - rewrite !filter_cons_True; [by f_equal | | done]. apply Hl; [left | done].
  - rewrite !filter_cons_False; [done | | done].
    intros H2. apply H1, Hl; [left | done].
Qed.

Lemma filter_all (P : A → Prop) `{!∀ x, Decision (P x)} (l : list A) :
  (∀ x, x ∈ l → P x) → filter P l = l.
Proof.
  induction l as [|x l IH]; intros Hl; [done |].
  rewrite filter_cons_True by (apply Hl; left).
  f_equal. apply IH. intros y Hy. apply Hl. by right.
Qed.

Lemma filter_and (P Q : A → Prop)
    `{!∀ x, Decision (P x)} `{!∀ x, Decision (Q x)} (l : list A) :
  filter P (filter Q l) = filter (λ x, P x ∧ Q x) l.
Proof.
  induction l as [|x l IH]; [done |].
  destruct (decide (Q x)) as [HQ|HQ].
  - rewrite (filter_cons_True Q) by done. destruct (decide (P x)) as [HP|HP].
    + rewrite !filter_cons_True by done. by f_equal.
    + rewrite !filter_cons_False by tauto. done.
  - rewrite (filter_cons_False Q) by done.
    rewrite (filter_cons_False (λ x, P x ∧ Q x)) by tauto. done.
Qed.

End filter_facts.

Section more_dict_facts.
Context {V : Type}.
Implicit Types (d : list (string * V)) (k : string) (v : V).

Lemma setitem_same d k v : Dict.get k d = Some v → Dict.setitem k v d = d.
Proof.
  induction d as [|[k0 v0] d IH]; csimpl; [done |].
  case_decide; intros ?; simplify_eq; [done |]. by rewrite IH.
Qed.

Lemma keys_remove d k :
  NoDup (Dict.keys d) →
  Dict.keys (Dict.remove k d) = filter (λ k', k' ≠ k) (Dict.keys d).
Proof.
  unfold Dict.keys. induction d as [|[k0 v0] d IH]; csimpl; [done |].
  intros [Hk0 Hd]%NoDup_cons. destruct (decide (k0 = k)) as [->|Hne].
  - rewrite filter_cons_False by (intros ?; done).
    symmetry. apply filter_all. intros x Hx ->. done.
  - rewrite filter_cons_True by done. csimpl. by rewrite IH.
Qed.

Lemma get_foldl_setitem (a b : list (string * V)) k :
  NoDup (Dict.keys b) →
  Dict.get k (foldl (λ d kv, Dict.setitem kv.1 kv.2 d) a b)
  = match Dict.get k b with Some v => Some v | None => Dict.get k a end.
Proof.
  unfold Dict.keys. revert a.
  induction b as [|[k0 v0] b IH]; intros a Hb; csimpl; [done |].
  apply NoDup_cons in Hb as [Hk0 Hb]. rewrite IH by done.
  rewrite get_setitem. destruct (decide (k0 = k)) as [->|Hne]; [|done].
  by rewrite (proj2 (get_None b k)).
Qed.

End more_dict_facts.

(** ** The updated dictionary, again *)

Section more_updated.
Implicit Types (d P : list (string * list pyval)) (k : string)
  (kwargs : list (string * pyval)).

Lemma fields_stringify d : fields (stringify d) = fields d.
Proof.
  unfold fields, stringify. induction d as [|[k l] d IH]; csimpl; [done |].
  rewrite IH. f_equal. by rewrite map_map.
Qed.

Lemma urlencode_data_stringify d :
  QD.urlencode_data (stringify d) = QD.urlencode_data d.
Proof. by rewrite !urlencode_data_fields, fields_stringify. Qed.

Lemma stringify_setitem d k (l : list pyval) :
  stringify (Dict.setitem k l d)
  = Dict.setitem k (map (λ v, PyStr (py_str v)) l) (stringify d).
Proof.
  induction d as [|[k0 l0] d IH]; csimpl; [done |].
  case_decide; csimpl; [done | by rewrite IH].
Qed.

Lemma stringify_remove d k :
  stringify (Dict.remove k d) = Dict.remove k (stringify d).
Proof.
  induction d as [|[k0 l0] d IH]; csimpl; [done |].
  case_decide; csimpl; [done | by rewrite IH].
Qed.

(** The loop on two dictionaries with the same strings. *)
Lemma stringify_updates d1 d2 kwargs :
  stringify d1 = stringify d2 →
  stringify (foldl update d1 kwargs) = stringify (foldl update d2 kwargs).
Proof.
  revert d1 d2. induction kwargs as [|[k v] kwargs IH]; intros d1 d2 E; [done |].
  simpl. apply IH. unfold update. simpl. destruct (is_not_None v).
  - by rewrite !stringify_setitem, E.
  - by rewrite !stringify_remove, E.
Qed.

Lemma stringify_idemp d : stringify (stringify d) = stringify d.
Proof.
  unfold stringify. rewrite map_map. apply map_ext. intros [k l]. simpl.
  f_equal. by rewrite map_map.
Qed.

(** The string of the tag on the decoding of a string of the tag. *)
Lemma urlencode_second_run P kwargs1 kwargs2 :
  query_params P →
  QD.urlencode_data
    (updated_data (decode (QD.urlencode_data (updated_data P kwargs1))) kwargs2)
  = QD.urlencode_data (foldl update (foldl update P kwargs1) kwargs2).
Proof.
  intros HP. rewrite updated_data_params by apply decode_params.
  rewrite decode_updated by done.
  rewrite <- urlencode_data_stringify.
  rewrite (stringify_updates _ (foldl update P kwargs1)) by apply stringify_idemp.
  apply urlencode_data_stringify.
Qed.

(** A keyword the dictionary already agrees with changes nothing. *)
Lemma updates_fixed d kwargs :
  (∀ kv, kv ∈ kwargs → update d kv = d) → foldl update d kwargs = d.
Proof.
  induction kwargs as [|kv kwargs IH]; intros H; [done |].
  change (foldl update d (kv :: kwargs)) with (foldl update (update d kv) kwargs).
  rewrite (H kv) by left. apply IH. intros kv' ?. apply H. by right.
Qed.

Lemma updates_twice d kwargs :
  NoDup (Dict.keys d) → keywords kwargs →
  foldl update (foldl update d kwargs) kwargs = foldl update d kwargs.
Proof.
  intros Hd Hkw. apply updates_fixed. intros [k v] Hin.
  pose proof (get_updates d k kwargs Hd Hkw) as Hget.
  rewrite (get_elem kwargs k v) in Hget by done.
  unfold update. simpl. destruct (is_not_None v).
  - by apply setitem_same.
  - apply remove_absent. by apply get_None.
Qed.

(** The keys when the loop is over: those of the dictionary that no keyword
    removes, where they were, then the new keys of the keywords in the order
    of the keywords. *)
Lemma keys_updates d kwargs :
  NoDup (Dict.keys d) → keywords kwargs →
  Dict.keys (foldl update d kwargs)
  = filter (λ k, Dict.get k kwargs ≠ Some PyNone) (Dict.keys d)
    ++ (filter (λ kv, kv.2 ≠ PyNone ∧ kv.1 ∉ Dict.keys d) kwargs).*1.
Proof.
  unfold keywords. intros Hd Hkw. revert d Hd.
  induction kwargs as [|[k0 v0] kwargs IH]; intros d Hd.
  { simpl. rewrite app_nil_r. symmetry. by apply filter_all. }
  unfold Dict.keys in Hkw. csimpl in Hkw. apply NoDup_cons in Hkw as [Hk0 Hkw].
  assert (∀ kv : string * pyval, kv ∈ kwargs → kv.1 ≠ k0) as Hrest.
  { intros kv Hin <-. apply Hk0. apply list_elem_of_fmap. by exists kv. }
  assert (Dict.get k0 kwargs = None) as Hnone by by apply get_None.
  change (foldl update d ((k0, v0) :: kwargs))
    with (foldl update (update d (k0, v0)) kwargs).
  rewrite (IH Hkw) by by apply update_NoDup. clear IH.
  destruct (decide (v0 = PyNone)) as [->|Hv0].
  - (* the keyword removes its key *)
    change (update d (k0, PyNone)) with (Dict.remove k0 d).
    rewrite keys_remove, filter_and by done.
    rewrite filter_cons_False by (simpl; tauto).
    f_equal.
    + apply list_filter_iff. intros k. csimpl.
      destruct (decide (k0 = k)) as [->|Hne]; [tauto |].
      split; [tauto | intros ?; split; [done | congruence]].
    + f_equal. apply filter_iff_elem. intros kv Hin.
      rewrite list_elem_of_filter. pose proof (Hrest kv Hin). tauto.
  - assert (update d (k0, v0) = Dict.setitem k0 [v0] d) as ->.
    { unfold update. simpl. by rewrite is_not_None_true. }
    assert (filter (λ k, Dict.get k ((k0, v0) :: kwargs) ≠ Some PyNone) (Dict.keys d)
            = filter (λ k, Dict.get k kwargs ≠ Some PyNone) (Dict.keys d)) as ->.
    { apply list_filter_iff. intros k. csimpl.
      destruct (decide (k0 = k)) as [->|Hne]; [|done].
      rewrite Hnone. split; congruence. }
    destruct (decide (k0 ∈ Dict.keys d)) as [Hin0|Hin0].
    + (* the key is there: it keeps its place *)
      rewrite keys_setitem_in by done.
      rewrite (filter_cons_False _ (k0, v0)) by (simpl; tauto). done.
    + (* a new key: it goes last *)
      rewrite setitem_absent by done.
      assert (Dict.keys (d ++ [(k0, [v0])]) = Dict.keys d ++ [k0]) as ->.
      { unfold Dict.keys. by rewrite fmap_app. }
      rewrite filter_app, (filter_cons_True _ k0) by (rewrite Hnone; done).
      rewrite filter_nil, (filter_cons_True _ (k0, v0)) by done. csimpl.
      rewrite <- (assoc (++)). csimpl. do 3 f_equal.
      apply filter_iff_elem. intros kv Hin. pose proof (Hrest kv Hin).
      rewrite elem_of_app, list_elem_of_singleton. tauto.
Qed.

End more_updated.

(** ** Escapes *)

Section escapes.
Import Urllib.

Lemma quote_plus_unreserved s : unreserved s = true → quote_plus s = s.
Proof.
  unfold unreserved. induction s as [|b s IH]; [done |].
  simpl. intros [Hb Hs]%andb_true_iff.
  rewrite quote_plus_cons, IH by done.
  unfold plus_quoter. by rewrite Hb.
Qed.

Lemma two_hex_app s t : two_hex s = true → two_hex (s +:+ t) = true.
Proof. by destruct s as [|a [|b s]]. Qed.

Lemma well_escaped_app s t :
  well_escaped s = true → well_escaped t = true → well_escaped (s +:+ t) = true.
Proof.
  intros Hs Ht. induction s as [|c s IH]; [done |].
  rewrite str_app_cons. simpl in *.
  apply andb_true_iff in Hs as [Hc Hs]. rewrite IH by done.
  destruct (Ascii.eqb c "%"); [|done]. by rewrite two_hex_app.
Qed.

Lemma plus_quoter_escaped b : well_escaped (plus_quoter b) = true.
Proof. by destruct b as [[] [] [] [] [] [] [] []]. Qed.

Lemma quote_plus_escaped s : well_escaped (quote_plus s) = true.
Proof.
  induction s as [|b s IH]; [done |].
  rewrite quote_plus_cons. by apply well_escaped_app, IH; apply plus_quoter_escaped.
Qed.

Lemma urlencode_escaped k (v : string) : well_escaped (urlencode k v) = true.
Proof.
  unfold urlencode.
  apply well_escaped_app; [apply quote_plus_escaped |].
  apply well_escaped_app; [done | apply quote_plus_escaped].
Qed.

Lemma urlencode_data_escaped d : well_escaped (QD.urlencode_data d) = true.
Proof.
  rewrite urlencode_data_fields.
  induction (fields d) as [|kv [|kv' l] IH]; [done | apply urlencode_escaped |].
  rewrite map_cons, join_cons by done.
  apply well_escaped_app; [apply urlencode_escaped |].
  by apply well_escaped_app.
Qed.

Lemma urlencode_data_unreserved d :
  forallb (λ kv, unreserved kv.1 && unreserved kv.2) (fields d) = true →
  QD.urlencode_data d
  = Str.join "&" (map (λ kv, kv.1 +:+ "=" +:+ kv.2) (fields d)).
Proof.
  rewrite urlencode_data_fields. intros H. f_equal.
  induction (fields d) as [|[k v] l IH]; [done |].
  simpl in H. apply andb_true_iff in H as [[Hk Hv]%andb_true_iff Hl].
  csimpl. rewrite IH by done. f_equal.
  unfold urlencode. by rewrite !quote_plus_unreserved.
Qed.

Lemma urlencode_data_empty d :
  Forall (λ kl, kl.2 ≠ []) d → QD.urlencode_data d = EmptyString ↔ d = [].
Proof.
  intros Hd. split; [|by intros ->].
  rewrite urlencode_data_fields. intros E.
  destruct d as [|[k [|v l]] d]; [done | |].
  - by apply Forall_cons in Hd as [? _].
  - change (fields ((k, v :: l) :: d))
      with ((k, py_str v) :: (map (λ v, (k, py_str v)) l ++ fields d)) in E.
    by apply join_urlencode_nonempty in E.
Qed.

End escapes.

(** ** The tag on a request, again *)

Section tag_more.
Implicit Types (h : heap) (request : HttpRequest)
  (P : list (string * list pyval)) (kwargs : list (string * pyval))
  (k : string) (v : pyval).

(** X1. The keys of the decoded result, in order: the keys of the
    parameters that no keyword removes, in the order of the parameters,
    then the keys that keywords add, in the order of the keywords. *)
Theorem result_key_order h request P kwargs :
  data <$> h !! GET request = Some P →
  query_params P → keywords kwargs →
  ∃ s h', query_transform request kwargs h = (Ok s, h')
    ∧ Dict.keys (decode s)
      = filter (λ k, Dict.get k kwargs ≠ Some PyNone) (Dict.keys P)
        ++ (filter (λ kv, kv.2 ≠ PyNone ∧ kv.1 ∉ Dict.keys P) kwargs).*1.
Proof.
  intros Hh HP Hkw. eexists _, _.
  split; [by apply run_on_params |].
  rewrite decode_updated, keys_stringify by done.
  apply keys_updates; [apply HP | done].
Qed.

(** X2. Two runs in a row, the second on the decoding of what the first
    returned, return the string of one run with the keywords of both. *)
Theorem two_runs_compose h request P kwargs1 kwargs2 :
  data <$> h !! GET request = Some P →
  query_params P → keywords (kwargs1 ++ kwargs2) →
  ∃ s1 h1 s h', query_transform request kwargs1 h = (Ok s1, h1)
    ∧ query_transform request (kwargs1 ++ kwargs2) h = (Ok s, h')
    ∧ ∀ h2 request2,
        data <$> h2 !! GET request2 = Some (decode s1) →
        ∃ h2', query_transform request2 kwargs2 h2 = (Ok s, h2').
Proof.
  intros Hh HP _. eexists _, _, _, _.
  split; [by apply run_on_params |]. split; [by apply run_on_params |].
  intros h2 request2 Hh2. eexists.
  rewrite (run_on_params h2 request2 _ kwargs2 Hh2).
  rewrite urlencode_second_run by done.
  rewrite (updated_data_params P (kwargs1 ++ kwargs2)) by apply HP.
  by rewrite foldl_app.
Qed.

(** X3. Two runs in a row decode to the multi-map of one run with the
    keywords of the first updated by the keywords of the second. *)
Theorem two_runs_merge h request P kwargs1 kwargs2 :
  data <$> h !! GET request = Some P →
  query_params P → keywords kwargs1 → keywords kwargs2 →
  ∃ s1 h1 s h', query_transform request kwargs1 h = (Ok s1, h1)
    ∧ query_transform request (merged kwargs1 kwargs2) h = (Ok s, h')
    ∧ ∀ h2 request2,
        data <$> h2 !! GET request2 = Some (decode s1) →
        ∃ s2 h2', query_transform request2 kwargs2 h2 = (Ok s2, h2')
          ∧ same_multimap (decode s2) (decode s).
Proof.
  intros Hh HP Hkw1 Hkw2. eexists _, _, _, _.
  split; [by apply run_on_params |]. split; [by apply run_on_params |].
  intros h2 request2 Hh2. eexists _, _.
  split; [by apply run_on_params |].
  intros k.
  rewrite (get_decoded (decode _) kwargs2) by (apply decode_params || done).
  rewrite (get_decoded P kwargs1) by done.
  rewrite (get_decoded P (merged kwargs1 kwargs2))
    by (done || by apply copy_bindings_NoDup).
  unfold merged. rewrite get_foldl_setitem by done.
  by destruct (Dict.get k kwargs2).
Qed.

(** X4. A second run with the same keywords, on the decoding of what the
    first run returned, returns the same string. *)
Theorem same_keywords_idempotent h request P kwargs :
  data <$> h !! GET request = Some P →
  query_params P → keywords kwargs →
  ∃ s h', query_transform request kwargs h = (Ok s, h')
    ∧ ∀ h2 request2,
        data <$> h2 !! GET request2 = Some (decode s) →
        ∃ h2', query_transform request2 kwargs h2 = (Ok s, h2').
Proof.
  intros Hh HP Hkw. eexists _, _.
  split; [by apply run_on_params |].
  intros h2 request2 Hh2. eexists.
  rewrite (run_on_params h2 request2 _ kwargs Hh2).
  rewrite urlencode_second_run by done.
  rewrite updates_twice by (done || apply HP).
  by rewrite (updated_data_params P kwargs) by apply HP.
Qed.

(** X5. Whatever dictionary the request holds and whatever the keywords,
    [parse_qsl] reads from the returned string the pairs of the updated
    copy, each value as its string, in order: no character of a key or of a
    value splits or joins pairs. *)
Theorem result_pairs h request P kwargs :
  data <$> h !! GET request = Some P →
  ∃ s h', query_transform request kwargs h = (Ok s, h')
    ∧ Urllib.parse_qsl s true = fields (updated_data P kwargs).
Proof.
  intros Hh. eexists _, _.
  split; [by apply run_on_params |]. apply parse_qsl_urlencode_data.
Qed.

(** X6. When the keys and the values that are left hold letters, digits
    and [_.-~] only, the returned string is they themselves, [key=value]
    joined by [&], with no escape. *)
Theorem unreserved_result_plain h request P kwargs :
  data <$> h !! GET request = Some P →
  forallb (λ kv, unreserved kv.1 && unreserved kv.2)
          (fields (updated_data P kwargs)) = true →
  ∃ s h', query_transform request kwargs h = (Ok s, h')
    ∧ s = Str.join "&"
            (map (λ kv, kv.1 +:+ "=" +:+ kv.2) (fields (updated_data P kwargs))).
Proof.
  intros Hh Hu. eexists _, _.
  split; [by apply run_on_params |]. by apply urlencode_data_unreserved.
Qed.

(** X7. Two runs on the same request whose keywords give one key two
    integers return the same string only when the integers are equal. *)
Theorem int_values_distinct_results h request P kwargs1 kwargs2 k (z1 z2 : Z) :
  data <$> h !! GET request = Some P →
  query_params P → keywords kwargs1 → keywords kwargs2 →
  (k, PyInt z1) ∈ kwargs1 → (k, PyInt z2) ∈ kwargs2 →
  ∃ s1 s2 h1 h2, query_transform request kwargs1 h = (Ok s1, h1)
    ∧ query_transform request kwargs2 h = (Ok s2, h2)
    ∧ (s1 = s2 → z1 = z2).
Proof.
  intros Hh HP Hkw1 Hkw2 Hin1 Hin2. eexists _, _, _, _.
  split; [by apply run_on_params |]. split; [by apply run_on_params |].
  intros E.
  pose proof (get_decoded P kwargs1 k HP Hkw1) as H1.
  pose proof (get_decoded P kwargs2 k HP Hkw2) as H2.
  rewrite (get_elem kwargs1 k (PyInt z1)) in H1 by done.
  rewrite (get_elem kwargs2 k (PyInt z2)) in H2 by done.
  rewrite E, H2 in H1. simpl in H1.
  apply (inj pretty). congruence.
Qed.

(** X8. The returned string is empty exactly when every keyword is [None]
    and every key of the parameters has a keyword. *)
Theorem empty_result_iff h request P kwargs :
  data <$> h !! GET request = Some P →
  query_params P → keywords kwargs →
  ∃ s h', query_transform request kwargs h = (Ok s, h')
    ∧ (s = EmptyString ↔
       (∀ k v, (k, v) ∈ kwargs → v = PyNone)
       ∧ (∀ k, k ∈ Dict.keys P → (k, PyNone) ∈ kwargs)).
Proof.
  intros Hh HP Hkw. eexists _, _.
  split; [by apply run_on_params |].
  destruct HP as [HP HP'].
  assert (Forall (λ kl : string * list pyval, kl.2 ≠ []) P) as Hne.
  { eapply Forall_impl; [exact HP' |]. by intros kl [? _]. }
  rewrite updated_data_params by done.
  rewrite urlencode_data_empty by by apply updates_nonempty.
  pose proof (λ k, get_updates P k kwargs HP Hkw) as Hget.
  split.
  - intros E. rewrite E in Hget. split.
    + intros k v Hin. specialize (Hget k).
      rewrite (get_elem kwargs k v) in Hget by done.
      destruct v; simpl in Hget; congruence.
    + intros k Hk. specialize (Hget k).
      destruct (Dict.get k kwargs) as [v|] eqn:Ek.
      * destruct v; simpl in Hget; try congruence. by apply get_Some_elem.
      * simpl in Hget. symmetry in Hget. by apply get_None in Hget.
  - intros [Hnone Hall].
    destruct (foldl update P kwargs) as [|[k l] d] eqn:E; [done |].
    specialize (Hget k). simpl in Hget. rewrite decide_True in Hget by done.
    destruct (Dict.get k kwargs) as [v|] eqn:Ek.
    + apply get_Some_elem, Hnone in Ek as ->. done.
    + assert (k ∈ Dict.keys P) as Hk.
      { destruct (decide (k ∈ Dict.keys P)) as [|Hk]; [done |].
        apply get_None in Hk. congruence. }
      apply Hall, (get_elem kwargs) in Hk; [congruence | done].
Qed.

(** X9. Every [%] of the returned string starts an escape: it is followed
    by two hexadecimal digits, letters in upper case. *)
Theorem result_escapes_well_formed h request P kwargs :
  data <$> h !! GET request = Some P →
  ∃ s h', query_transform request kwargs h = (Ok s, h')
    ∧ well_escaped s = true.
Proof.
  intros Hh. eexists _, _.
  split; [by apply run_on_params |]. apply urlencode_data_escaped.
Qed.

End tag_more.

(** ** On concrete requests *)

Lemma result_key_order_witness :
  query_params two_tags
  ∧ keywords [("q", PyStr "x"); ("tag", PyNone); ("page", PyInt 2)]
  ∧ ∃ s h', query_transform the_request
              [("q", PyStr "x"); ("tag", PyNone); ("page", PyInt 2)]
              (request_heap two_tags) = (Ok s, h')
      ∧ Dict.keys (decode s)
        = filter (λ k, Dict.get k [("q", PyStr "x"); ("tag", PyNone);
                                   ("page", PyInt 2)] ≠ Some PyNone)
                 (Dict.keys two_tags)
          ++ (filter (λ kv, kv.2 ≠ PyNone ∧ kv.1 ∉ Dict.keys two_tags)
                     [("q", PyStr "x"); ("tag", PyNone); ("page", PyInt 2)]).*1.
Proof.
  split; [decided |]. split; [decided |].
  apply (result_key_order (request_heap two_tags) the_request two_tags
           [("q", PyStr "x"); ("tag", PyNone); ("page", PyInt 2)]);
    [reflexivity | decided | decided].
Defined.

Example result_key_order_ex :
  (query_transform the_request
     [("q", PyStr "x"); ("tag", PyNone); ("page", PyInt 2)]
     (request_heap two_tags)).1 = Ok "page=2&q=x".
Proof. vm_compute. reflexivity. Qed.

Lemma two_runs_compose_witness :
  query_params title_page
  ∧ keywords ([("page", PyInt 2)] ++ [("q", PyStr "a b")])
  ∧ ∃ s1 h1 s h',
      query_transform the_request [("page", PyInt 2)] (request_heap title_page)
      = (Ok s1, h1)
      ∧ query_transform the_request ([("page", PyInt 2)] ++ [("q", PyStr "a b")])
          (request_heap title_page) = (Ok s, h')
      ∧ ∀ h2 request2,
          data <$> h2 !! GET request2 = Some (decode s1) →
          ∃ h2', query_transform request2 [("q", PyStr "a b")] h2 = (Ok s, h2').
Proof.
  split; [decided |]. split; [decided |].
  apply (two_runs_compose (request_heap title_page) the_request title_page
           [("page", PyInt 2)] [("q", PyStr "a b")]);
    [reflexivity | decided | decided].
Defined.

Lemma two_runs_merge_witness :
  query_params title_page
  ∧ keywords [("page", PyNone); ("q", PyInt 1)] ∧ keywords [("page", PyInt 3)]
  ∧ ∃ s1 h1 s h',
      query_transform the_request [("page", PyNone); ("q", PyInt 1)]
        (request_heap title_page) = (Ok s1, h1)
      ∧ query_transform the_request
          (merged [("page", PyNone); ("q", PyInt 1)] [("page", PyInt 3)])
          (request_heap title_page) = (Ok s, h')
      ∧ ∀ h2 request2,
          data <$> h2 !! GET request2 = Some (decode s1) →
          ∃ s2 h2', query_transform request2 [("page", PyInt 3)] h2 = (Ok s2, h2')
            ∧ same_multimap (decode s2) (decode s).
Proof.
  split; [decided |]. split; [decided |]. split; [decided |].
  apply (two_runs_merge (request_heap title_page) the_request title_page
           [("page", PyNone); ("q", PyInt 1)] [("page", PyInt 3)]);
    [reflexivity | decided | decided | decided].
Defined.

(** The two strings of that merge: the same multi-map, the keys in another
    order. *)
Example two_runs_merge_ex :
  (query_transform the_request [("page", PyInt 3)]
     (request_heap (decode "title=test1&q=1"))).1 = Ok "title=test1&q=1&page=3"
  ∧ (query_transform the_request
       (merged [("page", PyNone); ("q", PyInt 1)] [("page", PyInt 3)])
       (request_heap title_page)).1 = Ok "title=test1&page=3&q=1".
Proof. split; vm_compute; reflexivity. Qed.

Lemma same_keywords_idempotent_witness :
  query_params two_tags ∧ keywords [("tag", PyStr "c"); ("page", PyNone)]
  ∧ ∃ s h', query_transform the_request [("tag", PyStr "c"); ("page", PyNone)]
              (request_heap two_tags) = (Ok s, h')
      ∧ ∀ h2 request2,
          data <$> h2 !! GET request2 = Some (decode s) →
          ∃ h2', query_transform request2 [("tag", PyStr "c"); ("page", PyNone)] h2
                 = (Ok s, h2').
Proof.
  split; [decided |]. split; [decided |].
  apply (same_keywords_idempotent (request_heap two_tags) the_request two_tags
           [("tag", PyStr "c"); ("page", PyNone)]);
    [reflexivity | decided | decided].
Defined.

Lemma result_pairs_witness :
  ∃ s h', query_transform the_request [("q", PyStr "a&b=c ?"); ("n", PyInt (-3))]
            (request_heap [("empty", []); ("k", [PyInt 7; PyStr "x y"])])
          = (Ok s, h')
    ∧ Urllib.parse_qsl s true
      = fields (updated_data [("empty", []); ("k", [PyInt 7; PyStr "x y"])]
                  [("q", PyStr "a&b=c ?"); ("n", PyInt (-3))]).
Proof.
  apply (result_pairs (request_heap [("empty", []); ("k", [PyInt 7; PyStr "x y"])])
           the_request [("empty", []); ("k", [PyInt 7; PyStr "x y"])]
           [("q", PyStr "a&b=c ?"); ("n", PyInt (-3))]).
  reflexivity.
Defined.

Example result_pairs_ex :
  (query_transform the_request [("q", PyStr "a&b=c ?"); ("n", PyInt (-3))]
     (request_heap [("empty", []); ("k", [PyInt 7; PyStr "x y"])])).1
  = Ok "k=7&k=x+y&q=a%26b%3Dc+%3F&n=-3".
Proof. vm_compute. reflexivity. Qed.

Lemma unreserved_result_plain_witness :
  forallb (λ kv, unreserved kv.1 && unreserved kv.2)
          (fields (updated_data title_page [("page", PyInt 2)])) = true
  ∧ ∃ s h', query_transform the_request [("page", PyInt 2)]
              (request_heap title_page) = (Ok s, h')
      ∧ s = Str.join "&"
              (map (λ kv, kv.1 +:+ "=" +:+ kv.2)
                   (fields (updated_data title_page [("page", PyInt 2)]))).
Proof.
  split; [vm_compute; reflexivity |].
  apply (unreserved_result_plain (request_heap title_page) the_request title_page
           [("page", PyInt 2)]);
    [reflexivity | vm_compute; reflexivity].
Defined.

Lemma int_values_distinct_results_witness :
  query_params title_page
  ∧ keywords [("page", PyInt 2)] ∧ keywords [("page", PyInt 3); ("q", PyNone)]
  ∧ ∃ s1 s2 h1 h2,
      query_transform the_request [("page", PyInt 2)] (request_heap title_page)
      = (Ok s1, h1)
      ∧ query_transform the_request [("page", PyInt 3); ("q", PyNone)]
          (request_heap title_page) = (Ok s2, h2)
      ∧ (s1 = s2 → 2%Z = 3%Z).
Proof.
  split; [decided |]. split; [decided |]. split; [decided |].
  apply (int_values_distinct_results (request_heap title_page) the_request
           title_page [("page", PyInt 2)] [("page", PyInt 3); ("q", PyNone)]
           "page" 2 3);
    [reflexivity | decided | decided | decided | decided | decided].
Defined.

Lemma empty_result_iff_witness :
  query_params title_page
  ∧ keywords [("page", PyNone); ("q", PyNone); ("title", PyNone)]
  ∧ ∃ s h', query_transform the_request
              [("page", PyNone); ("q", PyNone); ("title", PyNone)]
              (request_heap title_page) = (Ok s, h')
      ∧ (s = EmptyString ↔
         (∀ k v, (k, v) ∈ [("page", PyNone); ("q", PyNone); ("title", PyNone)] →
                 v = PyNone)
         ∧ (∀ k, k ∈ Dict.keys title_page →
                 (k, PyNone) ∈ [("page", PyNone); ("q", PyNone); ("title", PyNone)])).
Proof.
  split; [decided |]. split; [decided |].
  apply (empty_result_iff (request_heap title_page) the_request title_page
           [("page", PyNone); ("q", PyNone); ("title", PyNone)]);
    [reflexivity | decided | decided].
Defined.

Lemma result_escapes_well_formed_witness :
  ∃ s h', query_transform the_request [("q", PyStr "100% é&=")]
            (request_heap title_page) = (Ok s, h')
    ∧ well_escaped s = true.
Proof.
  apply (result_escapes_well_formed (request_heap title_page) the_request
           title_page [("q", PyStr "100% é&=")]).
  reflexivity.
Defined.

Example result_escapes_ex :
  (query_transform the_request [("q", PyStr "100% é&=")]
     (request_heap title_page)).1
  = Ok "title=test1&page=1&q=100%25+%C3%A9%26%3D".
Proof. vm_compute. reflexivity. Qed.
